(** * x86-64 page-table level operations of the Jailhouse hypervisor

    A shallow embedding of [hypervisor/arch/x86/paging.c]: the per-level
    operations on 8-byte page-table entries and the four-entry descriptor
    array [x86_64_paging] that the architecture-neutral walker is driven by.

    Conventions.
    - [unsigned long] and [u64] values are integers of [Z]; the code only
      combines them with [&], [|] and [>>], none of which leaves the range
      [0, 2^64), so no wrap-around has to be written out (lemmas
      [u64_land_r], [u64_lor] and those after them).
    - [pt_entry_t] and [page_table_t] are both [u64 *]; a pointer is the byte
      address of the 8-byte slot it points to, and [&page_table[n]] is
      [page_table + 8 * n].
    - memory is a total store from slot addresses to the word held there;
      a function that writes through a pointer returns the updated store. *)

From Stdlib Require Import ZArith Lia Bool List.
Import ListNotations.

Local Open Scope Z_scope.

(** ** Machine words and memory *)

Definition u64 (x : Z) : Prop := 0 <= x < 2 ^ 64.

Definition memory := Z -> Z.

(** [*p] *)
Definition load (m : memory) (p : Z) : Z := m p.

(** [*p = v] *)
Definition store (m : memory) (p v : Z) : memory :=
  fun q => if q =? p then v else m q.

Definition sizeof_u64 : Z := 8.

(** [&page_table[n]] for a [u64 *page_table] *)
Definition index_ptr (page_table n : Z) : Z := page_table + sizeof_u64 * n.

(** Modelled from the spec: [PAGE_SIZE] is defined in [asm/paging.h], not
    in [paging.c]; the specification fixes the leaf page (and table page)
    size to 4 KiB. *)
Definition PAGE_SIZE : Z := 4096.

Definition X86_64_FLAG_HUGEPAGE : Z := 0x80.

(** ** The level operations *)

Section Backend.

(** Two constants of [jailhouse/paging.h] / [asm/paging.h] that the file
    uses but does not define: the flag bits given to a freshly linked table
    and the sentinel returned when no physical address can be decoded. *)
Variable PAGE_DEFAULT_FLAGS : Z.
Variable INVALID_PHYS_ADDR : Z.

Definition x86_64_entry_valid (m : memory) (pte : Z) : bool :=
  negb (Z.land (load m pte) 1 =? 0).

Definition x86_64_get_flags (m : memory) (pte : Z) : Z :=
  Z.land (load m pte) 0x7f.

Definition x86_64_set_next_pt (m : memory) (pte next_pt : Z) : memory :=
  store m pte (Z.lor (Z.land next_pt 0x000ffffffffff000) PAGE_DEFAULT_FLAGS).

Definition x86_64_clear_entry (m : memory) (pte : Z) : memory :=
  store m pte 0.

(** The body of the [for] loop of [x86_64_page_table_empty]: [remaining]
    counts the iterations still to run, [pte] is the running pointer
    ([pte++] advances it by one 8-byte slot). *)
Fixpoint page_table_empty_loop (m : memory) (pte : Z) (remaining : nat) : bool :=
  match remaining with
  | O => true
  | S r =>
      if x86_64_entry_valid m pte then false
      else page_table_empty_loop m (pte + sizeof_u64) r
  end.

Definition x86_64_page_table_empty (m : memory) (page_table : Z) : bool :=
  page_table_empty_loop m page_table (Z.to_nat (PAGE_SIZE / sizeof_u64)).

Definition x86_64_get_entry_l4 (page_table virt : Z) : Z :=
  index_ptr page_table (Z.land (Z.shiftr virt 39) 0x1ff).

Definition x86_64_get_entry_l3 (page_table virt : Z) : Z :=
  index_ptr page_table (Z.land (Z.shiftr virt 30) 0x1ff).

Definition x86_64_get_entry_l2 (page_table virt : Z) : Z :=
  index_ptr page_table (Z.land (Z.shiftr virt 21) 0x1ff).

Definition x86_64_get_entry_l1 (page_table virt : Z) : Z :=
  index_ptr page_table (Z.land (Z.shiftr virt 12) 0x1ff).

Definition x86_64_set_terminal_l1 (m : memory) (pte phys flags : Z) : memory :=
  store m pte (Z.lor (Z.land phys 0x000ffffffffff000) flags).

Definition x86_64_get_phys_l3 (m : memory) (pte virt : Z) : Z :=
  if Z.land (load m pte) X86_64_FLAG_HUGEPAGE =? 0 then INVALID_PHYS_ADDR
  else Z.lor (Z.land (load m pte) 0x000fffffc0000000)
             (Z.land virt 0x000000003fffffff).

Definition x86_64_get_phys_l2 (m : memory) (pte virt : Z) : Z :=
  if Z.land (load m pte) X86_64_FLAG_HUGEPAGE =? 0 then INVALID_PHYS_ADDR
  else Z.lor (Z.land (load m pte) 0x000fffffffe00000)
             (Z.land virt 0x00000000001fffff).

Definition x86_64_get_phys_l1 (m : memory) (pte virt : Z) : Z :=
  Z.lor (Z.land (load m pte) 0x000ffffffffff000)
        (Z.land virt 0x0000000000000fff).

Definition x86_64_get_next_pt_l4 (m : memory) (pte : Z) : Z :=
  Z.land (load m pte) 0x000ffffffffff000.

Definition x86_64_get_next_pt_l23 (m : memory) (pte : Z) : Z :=
  Z.land (load m pte) 0x000ffffffffff000.

(** Modelled from the spec: [page_map_get_phys_invalid] is a helper of the
    generic walker, declared in [jailhouse/paging.h] and only referenced by
    the x86 backend; per the specification the root level's [get_phys] is
    "always invalid", i.e. it ignores the entry and the address and returns
    the sentinel. *)
Definition page_map_get_phys_invalid (m : memory) (pte virt : Z) : Z :=
  INVALID_PHYS_ADDR.

(** ** The level descriptor

    [struct paging] as the initialisers of [x86_64_paging] use it.  A
    function-pointer member that an initialiser leaves out is a null
    pointer, modelled by [None]; an omitted [page_size] is zero. *)

Record paging : Type := {
  page_size : Z;
  get_entry : option (Z -> Z -> Z);
  entry_valid : option (memory -> Z -> bool);
  set_terminal : option (memory -> Z -> Z -> Z -> memory);
  get_phys : option (memory -> Z -> Z -> Z);
  get_flags : option (memory -> Z -> Z);
  set_next_pt : option (memory -> Z -> Z -> memory);
  get_next_pt : option (memory -> Z -> Z);
  clear_entry : option (memory -> Z -> memory);
  page_table_empty : option (memory -> Z -> bool)
}.

Definition x86_64_paging : list paging :=
  [ {| page_size := 0;
       entry_valid := Some x86_64_entry_valid;
       get_flags := Some x86_64_get_flags;
       set_next_pt := Some x86_64_set_next_pt;
       clear_entry := Some x86_64_clear_entry;
       page_table_empty := Some x86_64_page_table_empty;
       get_entry := Some x86_64_get_entry_l4;
       set_terminal := None;
       get_phys := Some page_map_get_phys_invalid;
       get_next_pt := Some x86_64_get_next_pt_l4 |};
    {| page_size := 0;
       entry_valid := Some x86_64_entry_valid;
       get_flags := Some x86_64_get_flags;
       set_next_pt := Some x86_64_set_next_pt;
       clear_entry := Some x86_64_clear_entry;
       page_table_empty := Some x86_64_page_table_empty;
       get_entry := Some x86_64_get_entry_l3;
       set_terminal := None;
       get_phys := Some x86_64_get_phys_l3;
       get_next_pt := Some x86_64_get_next_pt_l23 |};
    {| page_size := 0;
       entry_valid := Some x86_64_entry_valid;
       get_flags := Some x86_64_get_flags;
       set_next_pt := Some x86_64_set_next_pt;
       clear_entry := Some x86_64_clear_entry;
       page_table_empty := Some x86_64_page_table_empty;
       get_entry := Some x86_64_get_entry_l2;
       set_terminal := None;
       get_phys := Some x86_64_get_phys_l2;
       get_next_pt := Some x86_64_get_next_pt_l23 |};
    {| page_size := PAGE_SIZE;
       entry_valid := Some x86_64_entry_valid;
       get_flags := Some x86_64_get_flags;
       set_next_pt := Some x86_64_set_next_pt;
       clear_entry := Some x86_64_clear_entry;
       page_table_empty := Some x86_64_page_table_empty;
       get_entry := Some x86_64_get_entry_l1;
       set_terminal := Some x86_64_set_terminal_l1;
       get_phys := Some x86_64_get_phys_l1;
       get_next_pt := None |} ].

(** Calling through the descriptor of level [k] (0 = root, 3 = leaf);
    [None] when the array has no such level or the member is null. *)
Definition level (k : nat) : option paging := nth_error x86_64_paging k.

Definition call_get_phys (k : nat) (m : memory) (pte virt : Z) : option Z :=
  match level k with
  | Some l => option_map (fun f => f m pte virt) (get_phys l)
  | None => None
  end.

Definition call_get_flags (k : nat) (m : memory) (pte : Z) : option Z :=
  match level k with
  | Some l => option_map (fun f => f m pte) (get_flags l)
  | None => None
  end.

Definition call_get_entry (k : nat) (page_table virt : Z) : option Z :=
  match level k with
  | Some l => option_map (fun f => f page_table virt) (get_entry l)
  | None => None
  end.

Definition call_get_next_pt (k : nat) (m : memory) (pte : Z) : option Z :=
  match level k with
  | Some l => option_map (fun f => f m pte) (get_next_pt l)
  | None => None
  end.

End Backend.

(** ** Vocabulary of the specification *)

(** A physical address as a table entry can hold it: 4 KiB aligned and
    below 2^52. *)
Definition page_aligned (p : Z) : Prop := p mod PAGE_SIZE = 0.
Definition phys_range (p : Z) : Prop := 0 <= p < 2 ^ 52.

(** A flags value made of the validity bit and the generic flag bits only,
    i.e. within the mask [0x7f]. *)
Definition generic_flags (f : Z) : Prop := Z.land f 0x7f = f.
Definition validity_bit (f : Z) : bool := Z.testbit f 0.

(** The sentinel is usable only if it cannot be mistaken for an address,
    i.e. if it lies outside the 52-bit physical range. *)
Definition sentinel_ok (invalid : Z) : Prop := ~ phys_range invalid.

(** The default flags of a newly linked table are usable only if they keep
    clear of the address field and carry the validity bit. *)
Definition default_flags_ok (dflt : Z) : Prop :=
  Z.land dflt 0x000ffffffffff000 = 0 /\ validity_bit dflt = true.

(** Bits 1..6 of an entry, the "generic flags" in the narrow sense. *)
Definition generic_flag_bits (e : Z) : Z := Z.land e 0x7e.

(** The 9-bit field of a virtual address that starts at bit [lo]. *)
Definition vaddr_field (virt lo : Z) : Z := (virt / 2 ^ lo) mod 2 ^ 9.

(** Whether a descriptor provides an operation (non-null pointer). *)
Definition provided {A : Type} (op : option A) : bool :=
  match op with Some _ => true | None => false end.

(** A flags argument that stays within the low twelve bits. *)
Definition confined_to_bits_0_11 (f : Z) : Prop := Z.land f 0xfff = f.

(** The leaf round trip for a fixed flags argument: whatever aligned
    in-range address is mapped, looking it up returns it with the page
    offset of the virtual address. *)
Definition roundtrip_holds (f : Z) : Prop :=
  forall (m : memory) (pte v p : Z),
    page_aligned p -> phys_range p ->
    x86_64_get_phys_l1 (x86_64_set_terminal_l1 m pte p f) pte v
    = Z.lor p (Z.land v 0xFFF).

(** The position of the index field that [get_entry] of level [k] uses
    (0 = root, 3 = leaf): the shift count of [x86_64_get_entry_l4] ..
    [x86_64_get_entry_l1]. *)
Definition level_shift (k : nat) : Z :=
  match k with
  | O => 39
  | S O => 30
  | S (S O) => 21
  | _ => 12
  end.

(** ** Per-CPU data ([asm/percpu.h])

    [per_cpu (cpu)] and [public_per_cpu (cpu)] are address computations
    over the page pool.  The layout of [struct per_cpu] depends on types
    declared elsewhere, so its size and the offset of its member [public]
    are parameters, as is the address of [__page_pool]. *)

Section PerCpu.

Variable page_pool : Z.
Variable sizeof_per_cpu : Z.
Variable offsetof_public : Z.

(** [__page_pool + cpu * sizeof(struct per_cpu)], cast to a pointer to
    [struct per_cpu]: the product is computed in [unsigned long], the sum
    is a byte offset from [__page_pool]. *)
Definition per_cpu (cpu : Z) : Z :=
  page_pool + (cpu * sizeof_per_cpu) mod 2 ^ 64.

(** [&per_cpu(cpu)->public] *)
Definition public_per_cpu (cpu : Z) : Z :=
  per_cpu cpu + offsetof_public.

End PerCpu.

(** What the [aligned(PAGE_SIZE)] attribute of [struct per_cpu] gives: a
    size that is a positive multiple of the page size (and, for the
    product with a 32-bit CPU number not to wrap, below 2^32). *)
Definition per_cpu_size_ok (size : Z) : Prop :=
  0 < size < 2 ^ 32 /\ size mod PAGE_SIZE = 0.

Definition u32 (x : Z) : Prop := 0 <= x < 2 ^ 32.

(** * Proofs *)

(** ** Bit-level helpers *)

(** Every mask of the file is a contiguous bit field. *)
Lemma testbit_field (lo n i : Z) :
  0 <= lo -> 0 <= n ->
  Z.testbit (Z.shiftl (Z.ones n) lo) i = (lo <=? i) && (i <? lo + n).
Proof.
  intros Hlo Hn.
  destruct (Z.ltb_spec i 0) as [Hi | Hi].
  - rewrite Z.testbit_neg_r by lia.
    destruct (Z.leb_spec lo i); [lia | reflexivity].
  - rewrite Z.shiftl_spec by lia.
    destruct (Z.leb_spec lo i) as [Hle | Hlt].
    + rewrite Z.testbit_ones_nonneg by lia.
      destruct (Z.ltb_spec (i - lo) n), (Z.ltb_spec i (lo + n)); simpl; lia || reflexivity.
    + apply Z.testbit_neg_r. lia.
Qed.

Lemma field_12_51 : 0x000ffffffffff000 = Z.shiftl (Z.ones 40) 12.
Proof. reflexivity. Qed.
Lemma field_30_51 : 0x000fffffc0000000 = Z.shiftl (Z.ones 22) 30.
Proof. reflexivity. Qed.
Lemma field_21_51 : 0x000fffffffe00000 = Z.shiftl (Z.ones 31) 21.
Proof. reflexivity. Qed.
Lemma field_0_29 : 0x000000003fffffff = Z.shiftl (Z.ones 30) 0.
Proof. reflexivity. Qed.
Lemma field_0_20 : 0x00000000001fffff = Z.shiftl (Z.ones 21) 0.
Proof. reflexivity. Qed.
Lemma field_0_11 : 0x0000000000000fff = Z.shiftl (Z.ones 12) 0.
Proof. reflexivity. Qed.
Lemma field_0_8 : 0x1ff = Z.shiftl (Z.ones 9) 0.
Proof. reflexivity. Qed.
Lemma field_0_6 : 0x7f = Z.shiftl (Z.ones 7) 0.
Proof. reflexivity. Qed.
Lemma field_1_6 : 0x7e = Z.shiftl (Z.ones 6) 1.
Proof. reflexivity. Qed.
Lemma field_7 : 0x80 = Z.shiftl (Z.ones 1) 7.
Proof. reflexivity. Qed.
Lemma field_0 : 1 = Z.shiftl (Z.ones 1) 0.
Proof. reflexivity. Qed.

(** Rewrite the masks into fields, then push [Z.testbit] to the leaves. *)
Ltac fields :=
  rewrite ?field_12_51, ?field_30_51, ?field_21_51, ?field_0_29,
          ?field_0_20, ?field_0_11, ?field_0_8, ?field_0_6, ?field_1_6.

Ltac bits :=
  repeat first
    [ rewrite Z.land_spec | rewrite Z.lor_spec | rewrite Z.lxor_spec
    | rewrite testbit_field by lia | rewrite Z.bits_0 ].

Ltac split_ranges :=
  repeat match goal with
         | |- context [?a <=? ?b] => destruct (Z.leb_spec a b)
         | |- context [?a <? ?b] => destruct (Z.ltb_spec a b)
         end.

Ltac bitwise i Hi :=
  apply Z.bits_inj'; intros i Hi; fields; bits.

(** A non-negative word whose bits from [n] upwards are clear is below
    [2 ^ n]. *)
Lemma high_bits_clear_lt (x n : Z) :
  0 <= n -> 0 <= x ->
  (forall i, n <= i -> Z.testbit x i = false) ->
  x < 2 ^ n.
Proof.
  intros Hn Hx Hhigh.
  assert (Hmod : x mod 2 ^ n = x).
  { apply Z.bits_inj'; intros i Hi.
    rewrite Z.testbit_mod_pow2 by lia.
    destruct (Z.ltb_spec i n); simpl; [reflexivity | symmetry; apply Hhigh; lia]. }
  rewrite <- Hmod. apply Z.mod_pos_bound. lia.
Qed.

Lemma low_bits_clear_of_mod (x n i : Z) :
  0 <= n -> x mod 2 ^ n = 0 -> i < n -> Z.testbit x i = false.
Proof.
  intros Hn Hmod Hi.
  destruct (Z.ltb_spec i 0); [apply Z.testbit_neg_r; lia |].
  rewrite <- (Z.mod_pow2_bits_low x n i) by lia.
  rewrite Hmod. apply Z.bits_0.
Qed.

Lemma high_bits_clear_of_lt (x n i : Z) :
  0 <= x < 2 ^ n -> n <= i -> Z.testbit x i = false.
Proof.
  intros Hx Hi.
  destruct (Z.ltb_spec n 0) as [Hn | Hn].
  - rewrite Z.pow_neg_r in Hx by lia. lia.
  - rewrite <- (Z.mod_small x (2 ^ n)) by lia.
    apply Z.mod_pow2_bits_high. lia.
Qed.

Lemma field_nonneg (lo n : Z) : 0 <= lo -> 0 <= n -> 0 <= Z.shiftl (Z.ones n) lo.
Proof.
  intros Hlo Hn. apply Z.shiftl_nonneg.
  rewrite Z.ones_equiv. pose proof (Z.pow_pos_nonneg 2 n). lia.
Qed.

(** What a [get_phys] that decodes returns: a base taken from the field
    [lo .. lo+n-1] of the entry, joined with the low [lo] bits of the
    virtual address.  It always fits in [lo + n] bits. *)
Lemma decoded_range (e v lo n : Z) :
  0 <= lo -> 0 <= n ->
  0 <= Z.lor (Z.land e (Z.shiftl (Z.ones n) lo))
             (Z.land v (Z.shiftl (Z.ones lo) 0)) < 2 ^ (lo + n).
Proof.
  intros Hlo Hn.
  assert (Hpos : 0 <= Z.lor (Z.land e (Z.shiftl (Z.ones n) lo))
                            (Z.land v (Z.shiftl (Z.ones lo) 0))).
  { apply Z.lor_nonneg; split; apply Z.land_nonneg; right;
      apply field_nonneg; lia. }
  split; [exact Hpos |].
  apply high_bits_clear_lt; [lia | exact Hpos |].
  intros i Hi. bits. split_ranges; try lia.
  all: now rewrite ?andb_false_r.
Qed.

(** The base part alone is a multiple of [2 ^ lo]. *)
Lemma field_aligned (e lo n : Z) :
  0 <= lo -> 0 <= n ->
  Z.land e (Z.shiftl (Z.ones n) lo) mod 2 ^ lo = 0.
Proof.
  intros Hlo Hn. apply Z.bits_inj'; intros i Hi.
  rewrite Z.testbit_mod_pow2, Z.bits_0 by lia. bits.
  split_ranges; try lia; now rewrite ?andb_false_r.
Qed.

Lemma aligned_in_range_field (p : Z) :
  page_aligned p -> phys_range p -> Z.land p 0x000ffffffffff000 = p.
Proof.
  unfold page_aligned, phys_range, PAGE_SIZE. intros Hal Hr.
  change 4096 with (2 ^ 12) in Hal.
  bitwise i Hi. split_ranges; simpl.
  - apply andb_true_r.
  - rewrite andb_false_r. symmetry. apply (high_bits_clear_of_lt p 52); lia.
  - rewrite andb_false_r. symmetry. apply (low_bits_clear_of_mod p 12); lia.
  - rewrite andb_false_r. symmetry. apply (low_bits_clear_of_mod p 12); lia.
Qed.

Lemma field_fixed_aligned_in_range (p : Z) :
  Z.land p 0x000ffffffffff000 = p -> page_aligned p /\ phys_range p.
Proof.
  intros Hp. rewrite <- Hp. unfold page_aligned, phys_range, PAGE_SIZE. split.
  - fields. apply (field_aligned p 12 40); lia.
  - pose proof (decoded_range p 0 12 40 ltac:(lia) ltac:(lia)) as Hd.
    rewrite Z.land_0_l, Z.lor_0_r in Hd. fields. exact Hd.
Qed.

(** Flags within the generic mask do not reach the address field. *)
Lemma generic_flags_below_field (f : Z) :
  generic_flags f -> Z.land f 0x000ffffffffff000 = 0.
Proof.
  unfold generic_flags. intros Hf. rewrite <- Hf, <- Z.land_assoc.
  change (Z.land 0x7f 0x000ffffffffff000) with 0. apply Z.land_0_r.
Qed.

(** ** Loads after stores *)

Lemma load_store_same (m : memory) (p v : Z) : load (store m p v) p = v.
Proof. unfold load, store. now rewrite Z.eqb_refl. Qed.

Lemma load_store_other (m : memory) (p q v : Z) :
  q <> p -> load (store m p v) q = load m q.
Proof.
  unfold load, store. intros Hne.
  destruct (Z.eqb_spec q p); [contradiction | reflexivity].
Qed.

(** ** Entries seen as values *)

Lemma land_1_b2z (e : Z) : Z.land e 1 = Z.b2z (Z.testbit e 0).
Proof.
  change 1 with (Z.ones 1). rewrite Z.land_ones by lia.
  change (2 ^ 1) with 2. symmetry. apply Z.bit0_mod.
Qed.

Lemma entry_valid_bit0 (m : memory) (pte : Z) :
  x86_64_entry_valid m pte = Z.testbit (load m pte) 0.
Proof.
  unfold x86_64_entry_valid. rewrite land_1_b2z.
  now destruct (Z.testbit (load m pte) 0).
Qed.

Lemma hugepage_test_bit7 (e : Z) :
  (Z.land e X86_64_FLAG_HUGEPAGE =? 0) = negb (Z.testbit e 7).
Proof.
  unfold X86_64_FLAG_HUGEPAGE.
  destruct (Z.testbit e 7) eqn:Hb; simpl.
  - apply Z.eqb_neq. intros H0.
    assert (Ht : Z.testbit (Z.land e 0x80) 7 = true).
    { rewrite Z.land_spec, Hb. reflexivity. }
    rewrite H0, Z.bits_0 in Ht. discriminate.
  - apply Z.eqb_eq. rewrite field_7. apply Z.bits_inj'; intros i Hi. bits.
    split_ranges; simpl; rewrite ?andb_false_r; try reflexivity.
    assert (i = 7) as -> by lia. now rewrite Hb.
Qed.

(** ** Words stay words

    The operations only combine 64-bit words with [&] and [|], so every
    value written to a slot or returned is again a 64-bit word. *)

Lemma u64_land_r (a mask : Z) : u64 mask -> u64 (Z.land a mask).
Proof.
  unfold u64. intros Hm.
  assert (Hpos : 0 <= Z.land a mask) by (apply Z.land_nonneg; right; lia).
  split; [exact Hpos |].
  apply high_bits_clear_lt; [lia | exact Hpos |].
  intros i Hi. rewrite Z.land_spec, (high_bits_clear_of_lt mask 64) by lia.
  apply andb_false_r.
Qed.

Lemma u64_lor (a b : Z) : u64 a -> u64 b -> u64 (Z.lor a b).
Proof.
  unfold u64. intros Ha Hb.
  assert (Hpos : 0 <= Z.lor a b) by (apply Z.lor_nonneg; lia).
  split; [exact Hpos |].
  apply high_bits_clear_lt; [lia | exact Hpos |].
  intros i Hi.
  now rewrite Z.lor_spec, (high_bits_clear_of_lt a 64),
              (high_bits_clear_of_lt b 64) by lia.
Qed.

Lemma u64_set_terminal (m : memory) (pte phys flags : Z) :
  u64 flags -> u64 (load (x86_64_set_terminal_l1 m pte phys flags) pte).
Proof.
  intros Hf. unfold x86_64_set_terminal_l1. rewrite load_store_same.
  apply u64_lor; [apply u64_land_r; unfold u64; lia | exact Hf].
Qed.

Lemma u64_set_next_pt (dflt : Z) (m : memory) (pte next_pt : Z) :
  u64 dflt -> u64 (load (x86_64_set_next_pt dflt m pte next_pt) pte).
Proof.
  intros Hd. unfold x86_64_set_next_pt. rewrite load_store_same.
  apply u64_lor; [apply u64_land_r; unfold u64; lia | exact Hd].
Qed.

Lemma u64_get_phys_l1 (m : memory) (pte virt : Z) :
  u64 (x86_64_get_phys_l1 m pte virt).
Proof.
  unfold x86_64_get_phys_l1.
  apply u64_lor; apply u64_land_r; unfold u64; lia.
Qed.

Lemma u64_get_flags (m : memory) (pte : Z) : u64 (x86_64_get_flags m pte).
Proof. unfold x86_64_get_flags. apply u64_land_r. unfold u64. lia. Qed.

(** ** Leaf mapping round trip *)

(** C1: for every virtual address [v], every physical address [p] that is
    4 KiB aligned and within the 52-bit physical range, and every valid
    flags value [f] (within the generic mask, validity bit set), writing the
    leaf entry with [set_terminal (p, f)] and reading it back with the leaf
    [get_phys] for [v] yields exactly [p | (v & 0xFFF)]. *)
Theorem set_terminal_get_phys_roundtrip (m : memory) (pte v p f : Z) :
  page_aligned p -> phys_range p ->
  generic_flags f -> validity_bit f = true ->
  x86_64_get_phys_l1 (x86_64_set_terminal_l1 m pte p f) pte v
  = Z.lor p (Z.land v 0xFFF).
Proof.
  intros Hal Hr Hf _.
  unfold x86_64_get_phys_l1, x86_64_set_terminal_l1.
  rewrite load_store_same, Z.land_lor_distr_l.
  rewrite (generic_flags_below_field f Hf).
  rewrite Z.lor_0_r, <- Z.land_assoc, Z.land_diag.
  now rewrite aligned_in_range_field.
Qed.

Lemma set_terminal_get_phys_roundtrip_witness :
  x86_64_get_phys_l1
    (x86_64_set_terminal_l1 (fun _ => 0) 0x5000 0x2000 0x3) 0x5000 0x1234
  = 0x2234.
Proof.
  apply (set_terminal_get_phys_roundtrip (fun _ => 0) 0x5000 0x1234 0x2000 0x3).
  - reflexivity.
  - unfold phys_range. lia.
  - reflexivity.
  - reflexivity.
Defined.

(** ** Physical-address decoding *)

Section Decoding.

Variable INVALID_PHYS_ADDR : Z.

Lemma get_phys_l3_bit7 (m : memory) (pte virt : Z) :
  x86_64_get_phys_l3 INVALID_PHYS_ADDR m pte virt
  = if Z.testbit (load m pte) 7
    then Z.lor (Z.land (load m pte) 0x000fffffc0000000) (Z.land virt 0x3fffffff)
    else INVALID_PHYS_ADDR.
Proof.
  unfold x86_64_get_phys_l3. rewrite hugepage_test_bit7.
  now destruct (Z.testbit (load m pte) 7).
Qed.

Lemma get_phys_l2_bit7 (m : memory) (pte virt : Z) :
  x86_64_get_phys_l2 INVALID_PHYS_ADDR m pte virt
  = if Z.testbit (load m pte) 7
    then Z.lor (Z.land (load m pte) 0x000fffffffe00000) (Z.land virt 0x1fffff)
    else INVALID_PHYS_ADDR.
Proof.
  unfold x86_64_get_phys_l2. rewrite hugepage_test_bit7.
  now destruct (Z.testbit (load m pte) 7).
Qed.

Hypothesis sentinel : sentinel_ok INVALID_PHYS_ADDR.

Lemma decoded_1g_real (e virt : Z) :
  Z.lor (Z.land e 0x000fffffc0000000) (Z.land virt 0x3fffffff)
  <> INVALID_PHYS_ADDR.
Proof.
  intros Heq. apply sentinel. rewrite <- Heq. fields.
  apply (decoded_range e virt 30 22); lia.
Qed.

Lemma decoded_2m_real (e virt : Z) :
  Z.lor (Z.land e 0x000fffffffe00000) (Z.land virt 0x1fffff)
  <> INVALID_PHYS_ADDR.
Proof.
  intros Heq. apply sentinel. rewrite <- Heq. fields.
  apply (decoded_range e virt 21 31); lia.
Qed.

Lemma decoded_4k_real (e virt : Z) :
  Z.lor (Z.land e 0x000ffffffffff000) (Z.land virt 0xfff)
  <> INVALID_PHYS_ADDR.
Proof.
  intros Heq. apply sentinel. rewrite <- Heq. fields.
  apply (decoded_range e virt 12 40); lia.
Qed.

End Decoding.

(** C2: [get_phys] level by level.  The root always answers with the
    sentinel.  Each intermediate level answers with a real address exactly
    when bit 7 of the entry is set, and that address is the entry's large
    base (a multiple of 1 GiB at level 1, of 2 MiB at level 2) joined with
    the low 30, respectively 21, bits of the virtual address; with bit 7
    clear it answers with the sentinel.  The leaf always answers with a
    real address. *)
Theorem get_phys_per_level
    (PAGE_DEFAULT_FLAGS INVALID_PHYS_ADDR : Z) (m : memory) (pte virt : Z) :
  sentinel_ok INVALID_PHYS_ADDR ->
  let get_phys_at k :=
    call_get_phys PAGE_DEFAULT_FLAGS INVALID_PHYS_ADDR k m pte virt in
  let e := load m pte in
  let huge_1g := Z.lor (Z.land e 0x000fffffc0000000) (Z.land virt 0x3fffffff) in
  let huge_2m := Z.lor (Z.land e 0x000fffffffe00000) (Z.land virt 0x1fffff) in
  let leaf_4k := Z.lor (Z.land e 0x000ffffffffff000) (Z.land virt 0xfff) in
  get_phys_at 0%nat = Some INVALID_PHYS_ADDR
  /\ get_phys_at 1%nat
     = Some (if Z.testbit e 7 then huge_1g else INVALID_PHYS_ADDR)
  /\ get_phys_at 2%nat
     = Some (if Z.testbit e 7 then huge_2m else INVALID_PHYS_ADDR)
  /\ get_phys_at 3%nat = Some leaf_4k
  /\ (forall r, get_phys_at 1%nat = Some r ->
        (r <> INVALID_PHYS_ADDR <-> Z.testbit e 7 = true))
  /\ (forall r, get_phys_at 2%nat = Some r ->
        (r <> INVALID_PHYS_ADDR <-> Z.testbit e 7 = true))
  /\ leaf_4k <> INVALID_PHYS_ADDR
  /\ Z.land e 0x000fffffc0000000 mod 2 ^ 30 = 0
  /\ Z.land e 0x000fffffffe00000 mod 2 ^ 21 = 0.
Proof.
  intros Hs. cbv zeta.
  assert (H1 : call_get_phys PAGE_DEFAULT_FLAGS INVALID_PHYS_ADDR 1 m pte virt
               = Some (if Z.testbit (load m pte) 7
                       then Z.lor (Z.land (load m pte) 0x000fffffc0000000)
                                  (Z.land virt 0x3fffffff)
                       else INVALID_PHYS_ADDR)).
  { unfold call_get_phys, level, x86_64_paging.
    cbn [nth_error get_phys option_map]. now rewrite get_phys_l3_bit7. }
  assert (H2 : call_get_phys PAGE_DEFAULT_FLAGS INVALID_PHYS_ADDR 2 m pte virt
               = Some (if Z.testbit (load m pte) 7
                       then Z.lor (Z.land (load m pte) 0x000fffffffe00000)
                                  (Z.land virt 0x1fffff)
                       else INVALID_PHYS_ADDR)).
  { unfold call_get_phys, level, x86_64_paging.
    cbn [nth_error get_phys option_map]. now rewrite get_phys_l2_bit7. }
  assert (Hiff : forall (b : bool) r d,
            Some (if b then d else INVALID_PHYS_ADDR) = Some r ->
            d <> INVALID_PHYS_ADDR ->
            (r <> INVALID_PHYS_ADDR <-> b = true)).
  { intros b r d Hr Hd. injection Hr as <-.
    destruct b; split; intros Hx;
      try reflexivity; try assumption; try discriminate.
    now contradiction Hx. }
  split; [reflexivity |].
  split; [exact H1 |].
  split; [exact H2 |].
  split; [reflexivity |].
  split.
  { intros r Hr. rewrite H1 in Hr.
    apply (Hiff _ _ _ Hr). now apply decoded_1g_real. }
  split.
  { intros r Hr. rewrite H2 in Hr.
    apply (Hiff _ _ _ Hr). now apply decoded_2m_real. }
  split; [now apply decoded_4k_real |].
  split; fields; apply field_aligned; lia.
Qed.

Lemma get_phys_per_level_witness :
  sentinel_ok 0xffffffffffffffff
  /\ call_get_phys 0x3 0xffffffffffffffff 1 (fun _ => 0x40000083) 0 0x40001234
     = Some 0x40001234.
Proof.
  assert (Hs : sentinel_ok 0xffffffffffffffff).
  { unfold sentinel_ok, phys_range. lia. }
  split; [exact Hs |].
  exact (proj1 (proj2 (get_phys_per_level 0x3 0xffffffffffffffff
                         (fun _ => 0x40000083) 0 0x40001234 Hs))).
Defined.

(** ** Flags *)

Lemma level_in_range (dflt invalid : Z) (k : nat) :
  (k < 4)%nat ->
  exists l, level dflt invalid k = Some l /\ In l (x86_64_paging dflt invalid).
Proof.
  intros Hk. unfold level.
  destruct (nth_error (x86_64_paging dflt invalid) k) as [l |] eqn:Hl.
  - exists l. split; [reflexivity | eapply nth_error_In; eassumption].
  - apply nth_error_None in Hl. simpl in Hl. lia.
Qed.

(** The members that [X86_64_PAGING_COMMON] sets are the same functions in
    every descriptor. *)
Lemma common_members (dflt invalid : Z) (l : paging) :
  In l (x86_64_paging dflt invalid) ->
  entry_valid l = Some x86_64_entry_valid
  /\ get_flags l = Some x86_64_get_flags
  /\ set_next_pt l = Some (x86_64_set_next_pt dflt)
  /\ clear_entry l = Some x86_64_clear_entry
  /\ page_table_empty l = Some x86_64_page_table_empty.
Proof.
  intros Hin. repeat (destruct Hin as [<- | Hin]; [now repeat split |]).
  destruct Hin.
Qed.

Lemma get_flags_bits (e i : Z) :
  Z.testbit (Z.land e 0x7f) i = Z.testbit e i && ((0 <=? i) && (i <? 7)).
Proof. fields. bits. reflexivity. Qed.

(** C3 (as amended): at every level [get_flags] returns the entry masked
    with [0x7f], that is bits 0..6 - the validity bit together with the
    generic flag bits 1..6; bit 7, the huge-page marker, and every higher
    bit are always clear in the result. *)
Theorem get_flags_masks_low_seven
    (PAGE_DEFAULT_FLAGS INVALID_PHYS_ADDR : Z) (k : nat)
    (m : memory) (pte : Z) :
  (k < 4)%nat ->
  exists r,
    call_get_flags PAGE_DEFAULT_FLAGS INVALID_PHYS_ADDR k m pte = Some r
    /\ r = Z.land (load m pte) 0x7f
    /\ 0 <= r <= 0x7f
    /\ Z.testbit r 7 = false
    /\ (forall i, 7 <= i -> Z.testbit r i = false)
    /\ (forall i, 0 <= i <= 6 -> Z.testbit r i = Z.testbit (load m pte) i).
Proof.
  intros Hk.
  destruct (level_in_range PAGE_DEFAULT_FLAGS INVALID_PHYS_ADDR k Hk)
    as (l & Hl & Hin).
  destruct (common_members _ _ _ Hin) as (_ & Hgf & _).
  exists (Z.land (load m pte) 0x7f).
  assert (Hhigh : forall i, 7 <= i ->
                    Z.testbit (Z.land (load m pte) 0x7f) i = false).
  { intros i Hi. rewrite get_flags_bits.
    destruct (Z.ltb_spec i 7); [lia | now rewrite !andb_false_r]. }
  assert (Hpos : 0 <= Z.land (load m pte) 0x7f).
  { apply Z.land_nonneg. right. lia. }
  split.
  { unfold call_get_flags. rewrite Hl, Hgf. reflexivity. }
  split; [reflexivity |].
  split.
  { split; [exact Hpos |].
    pose proof (high_bits_clear_lt _ 7 ltac:(lia) Hpos Hhigh). lia. }
  split; [apply Hhigh; lia |].
  split; [exact Hhigh |].
  intros i Hi. rewrite get_flags_bits.
  destruct (Z.leb_spec 0 i), (Z.ltb_spec i 7); try lia. apply andb_true_r.
Qed.

Lemma get_flags_masks_low_seven_witness :
  exists r,
    call_get_flags 0x3 0xffffffffffffffff 1 (fun _ => 0x40000083) 0 = Some r
    /\ r = 0x3.
Proof.
  destruct (get_flags_masks_low_seven 0x3 0xffffffffffffffff 1
              (fun _ => 0x40000083) 0 ltac:(lia)) as (r & Hr & Hv & _).
  exists r. split; [exact Hr | exact Hv].
Defined.

(** C3 (as stated) fails: an entry that is just the validity bit has
    nothing in bits 1..6, yet [get_flags] reports 1, with bit 0 set. *)
Lemma get_flags_reports_validity_bit :
  let m := store (fun _ => 0) 0x5000 0x1 in
  x86_64_get_flags m 0x5000 = 1
  /\ Z.testbit (x86_64_get_flags m 0x5000) 0 = true
  /\ x86_64_get_flags m 0x5000 <> generic_flag_bits (load m 0x5000).
Proof.
  cbv zeta. repeat split. discriminate.
Qed.

(** ** Linking a next-level table *)

Lemma set_next_pt_entry (dflt : Z) (m : memory) (pte t : Z) :
  load (x86_64_set_next_pt dflt m pte t) pte
  = Z.lor (Z.land t 0x000ffffffffff000) dflt.
Proof. unfold x86_64_set_next_pt. apply load_store_same. Qed.

Lemma next_pt_field_after_set (dflt t : Z) :
  Z.land dflt 0x000ffffffffff000 = 0 ->
  page_aligned t -> phys_range t ->
  Z.land (Z.lor (Z.land t 0x000ffffffffff000) dflt) 0x000ffffffffff000 = t.
Proof.
  intros Hd Hal Hr.
  rewrite Z.land_lor_distr_l, Hd, Z.lor_0_r, <- Z.land_assoc, Z.land_diag.
  now apply aligned_in_range_field.
Qed.

(** C4: for a page-aligned table address [t] within the 52-bit range,
    [set_next_pt] followed by [get_next_pt] of any non-leaf level returns
    exactly [t], and the entry written by [set_next_pt] is valid, the
    default flags carrying the validity bit. *)
Theorem set_next_pt_get_next_pt
    (PAGE_DEFAULT_FLAGS INVALID_PHYS_ADDR : Z) (k : nat)
    (m : memory) (pte t : Z) :
  default_flags_ok PAGE_DEFAULT_FLAGS ->
  page_aligned t -> phys_range t ->
  (k < 3)%nat ->
  let m' := x86_64_set_next_pt PAGE_DEFAULT_FLAGS m pte t in
  call_get_next_pt PAGE_DEFAULT_FLAGS INVALID_PHYS_ADDR k m' pte = Some t
  /\ x86_64_entry_valid m' pte = true.
Proof.
  intros [Hd Hv] Hal Hr Hk. cbv zeta. split.
  - assert (Hfield : Z.land (load (x86_64_set_next_pt PAGE_DEFAULT_FLAGS m pte t) pte)
                            0x000ffffffffff000 = t).
    { rewrite set_next_pt_entry. now apply next_pt_field_after_set. }
    destruct k as [| [| [| k]]]; [| | | lia];
      unfold call_get_next_pt, level, x86_64_paging;
      cbn [nth_error get_next_pt option_map];
      unfold x86_64_get_next_pt_l4, x86_64_get_next_pt_l23;
      now rewrite Hfield.
  - rewrite entry_valid_bit0, set_next_pt_entry, Z.lor_spec.
    unfold validity_bit in Hv. rewrite Hv. apply orb_true_r.
Qed.

Lemma set_next_pt_get_next_pt_witness :
  let m' := x86_64_set_next_pt 0x3 (fun _ => 0) 0x5000 0x7000 in
  call_get_next_pt 0x3 0xffffffffffffffff 0 m' 0x5000 = Some 0x7000
  /\ x86_64_entry_valid m' 0x5000 = true.
Proof.
  apply (set_next_pt_get_next_pt 0x3 0xffffffffffffffff 0 (fun _ => 0)
           0x5000 0x7000).
  - split; reflexivity.
  - reflexivity.
  - unfold phys_range. lia.
  - lia.
Defined.

(** ** Entry selection *)

Lemma index_is_field (virt lo : Z) :
  0 <= lo -> Z.land (Z.shiftr virt lo) 0x1ff = vaddr_field virt lo.
Proof.
  intros Hlo. unfold vaddr_field.
  change 0x1ff with (Z.ones 9).
  now rewrite Z.land_ones, Z.shiftr_div_pow2 by lia.
Qed.

Lemma vaddr_field_range (virt lo : Z) : 0 <= vaddr_field virt lo <= 511.
Proof.
  unfold vaddr_field.
  pose proof (Z.mod_pos_bound (virt / 2 ^ lo) (2 ^ 9) ltac:(lia)). lia.
Qed.

Lemma vaddr_field_bits (virt lo i : Z) :
  0 <= lo -> 0 <= i ->
  Z.testbit (vaddr_field virt lo) i
  = if i <? 9 then Z.testbit virt (lo + i) else false.
Proof.
  intros Hlo Hi. unfold vaddr_field.
  rewrite Z.testbit_mod_pow2 by lia.
  destruct (Z.ltb_spec i 9); simpl; [| reflexivity].
  rewrite Z.div_pow2_bits by lia. f_equal. lia.
Qed.

(** C5: at each level [get_entry] selects the slot of the table whose
    index is the level's 9-bit field of the virtual address - bits 39..47
    at the root, 30..38 and 21..29 at the intermediate levels, 12..20 at
    the leaf - and every such index lies in [0, 511]. *)
Theorem get_entry_selects_field
    (PAGE_DEFAULT_FLAGS INVALID_PHYS_ADDR : Z) (page_table virt : Z) :
  let get_entry_at k :=
    call_get_entry PAGE_DEFAULT_FLAGS INVALID_PHYS_ADDR k page_table virt in
  get_entry_at 0%nat = Some (index_ptr page_table (vaddr_field virt 39))
  /\ get_entry_at 1%nat = Some (index_ptr page_table (vaddr_field virt 30))
  /\ get_entry_at 2%nat = Some (index_ptr page_table (vaddr_field virt 21))
  /\ get_entry_at 3%nat = Some (index_ptr page_table (vaddr_field virt 12))
  /\ (forall lo, 0 <= vaddr_field virt lo <= 511)
  /\ (forall lo i, 0 <= lo -> 0 <= i < 9 ->
        Z.testbit (vaddr_field virt lo) i = Z.testbit virt (lo + i))
  /\ (forall lo i, 0 <= lo -> 9 <= i ->
        Z.testbit (vaddr_field virt lo) i = false).
Proof.
  cbv zeta.
  unfold call_get_entry, level, x86_64_paging.
  cbn [nth_error get_entry option_map].
  unfold x86_64_get_entry_l4, x86_64_get_entry_l3,
         x86_64_get_entry_l2, x86_64_get_entry_l1.
  rewrite !index_is_field by lia.
  repeat (split; [reflexivity |]).
  split; [intros lo; apply vaddr_field_range |].
  split; intros lo i Hlo Hi; rewrite vaddr_field_bits by lia.
  - destruct (Z.ltb_spec i 9); [reflexivity | lia].
  - destruct (Z.ltb_spec i 9); [lia | reflexivity].
Qed.

(** ** Validity, clearing and emptiness *)

Lemma page_table_empty_loop_true (m : memory) (remaining : nat) :
  forall pte,
    page_table_empty_loop m pte remaining = true
    <-> (forall n, (n < remaining)%nat ->
           x86_64_entry_valid m (index_ptr pte (Z.of_nat n)) = false).
Proof.
  unfold index_ptr.
  induction remaining as [| r IH]; intros pte; cbn [page_table_empty_loop].
  - split; [intros _ n Hn; lia | reflexivity].
  - destruct (x86_64_entry_valid m pte) eqn:Hv.
    + split; [discriminate |]. intros Hall.
      specialize (Hall 0%nat ltac:(lia)).
      replace (pte + sizeof_u64 * Z.of_nat 0) with pte in Hall by lia.
      congruence.
    + rewrite IH. split.
      * intros Hall [| n] Hn.
        -- replace (pte + sizeof_u64 * Z.of_nat 0) with pte by lia. exact Hv.
        -- specialize (Hall n ltac:(lia)).
           replace (pte + sizeof_u64 * Z.of_nat (S n))
             with (pte + sizeof_u64 + sizeof_u64 * Z.of_nat n) by lia.
           exact Hall.
      * intros Hall n Hn. specialize (Hall (S n) ltac:(lia)).
        replace (pte + sizeof_u64 + sizeof_u64 * Z.of_nat n)
          with (pte + sizeof_u64 * Z.of_nat (S n)) by lia.
        exact Hall.
Qed.

Lemma entries_per_table : Z.to_nat (PAGE_SIZE / sizeof_u64) = 512%nat.
Proof. reflexivity. Qed.

Lemma page_table_empty_true (m : memory) (page_table : Z) :
  x86_64_page_table_empty m page_table = true
  <-> (forall n, 0 <= n < 512 ->
         x86_64_entry_valid m (index_ptr page_table n) = false).
Proof.
  unfold x86_64_page_table_empty.
  rewrite entries_per_table, page_table_empty_loop_true. split.
  - intros Hall n Hn. specialize (Hall (Z.to_nat n) ltac:(lia)).
    now rewrite Z2Nat.id in Hall by lia.
  - intros Hall n Hn. apply Hall. lia.
Qed.

Lemma clear_entry_zero (m : memory) (pte : Z) :
  load (x86_64_clear_entry m pte) pte = 0.
Proof. unfold x86_64_clear_entry. apply load_store_same. Qed.

(** C6: [entry_valid] holds exactly when bit 0 of the entry is set;
    [clear_entry] sets the entry to zero (leaving every other slot as it
    was), after which [entry_valid] is false and [get_flags] is 0; and
    [page_table_empty] is true exactly when each of the 512 entries of the
    table fails [entry_valid].  Every level uses these same functions. *)
Theorem valid_clear_empty (PAGE_DEFAULT_FLAGS INVALID_PHYS_ADDR : Z) :
  (forall l, In l (x86_64_paging PAGE_DEFAULT_FLAGS INVALID_PHYS_ADDR) ->
     entry_valid l = Some x86_64_entry_valid
     /\ clear_entry l = Some x86_64_clear_entry
     /\ page_table_empty l = Some x86_64_page_table_empty)
  /\ (forall m pte,
        x86_64_entry_valid m pte = true <-> Z.testbit (load m pte) 0 = true)
  /\ (forall m pte,
        let m' := x86_64_clear_entry m pte in
        load m' pte = 0
        /\ x86_64_entry_valid m' pte = false
        /\ x86_64_get_flags m' pte = 0
        /\ (forall q, q <> pte -> load m' q = load m q))
  /\ (forall m page_table,
        x86_64_page_table_empty m page_table = true
        <-> (forall n, 0 <= n < 512 ->
               x86_64_entry_valid m (index_ptr page_table n) = false))
  /\ PAGE_SIZE / sizeof_u64 = 512.
Proof.
  split.
  { intros l Hin. destruct (common_members _ _ _ Hin) as (He & _ & _ & Hc & Hp).
    now repeat split. }
  split.
  { intros m pte. now rewrite entry_valid_bit0. }
  split.
  { intros m pte. cbv zeta.
    split; [apply clear_entry_zero |].
    split; [now rewrite entry_valid_bit0, clear_entry_zero |].
    split; [unfold x86_64_get_flags; now rewrite clear_entry_zero |].
    intros q Hq. unfold x86_64_clear_entry. now apply load_store_other. }
  split; [apply page_table_empty_true | reflexivity].
Qed.

(** ** The descriptor array *)

(** C7: the array has four descriptors, root to leaf.  [page_size] is
    non-zero only in the leaf descriptor, where it is the 4 KiB page size;
    [set_terminal] is provided by the leaf only; [get_next_pt] by every
    level but the leaf; [get_entry], [entry_valid], [get_flags],
    [clear_entry] and [page_table_empty] by every level. *)
Theorem level_descriptors (PAGE_DEFAULT_FLAGS INVALID_PHYS_ADDR : Z) :
  length (x86_64_paging PAGE_DEFAULT_FLAGS INVALID_PHYS_ADDR) = 4%nat
  /\ PAGE_SIZE = 4096
  /\ forall k l,
       level PAGE_DEFAULT_FLAGS INVALID_PHYS_ADDR k = Some l ->
       (page_size l <> 0 <-> k = 3%nat)
       /\ (k = 3%nat -> page_size l = PAGE_SIZE)
       /\ (provided (set_terminal l) = true <-> k = 3%nat)
       /\ (provided (get_next_pt l) = true <-> (k < 3)%nat)
       /\ provided (get_entry l) = true
       /\ provided (entry_valid l) = true
       /\ provided (get_flags l) = true
       /\ provided (clear_entry l) = true
       /\ provided (page_table_empty l) = true.
Proof.
  split; [reflexivity |]. split; [reflexivity |].
  intros k l Hl. unfold level, x86_64_paging in Hl.
  destruct k as [| [| [| [| k]]]]; cbn [nth_error] in Hl.
  5: { destruct k; discriminate Hl. }
  all: injection Hl as <-; cbn [page_size set_terminal get_next_pt get_entry
                                entry_valid get_flags clear_entry
                                page_table_empty provided].
  all: unfold PAGE_SIZE.
  all: repeat split; intros; try reflexivity; try lia; try discriminate;
       try congruence.
Qed.

Lemma level_descriptors_witness :
  exists l, level 0x3 0xffffffffffffffff 3 = Some l
            /\ page_size l = 4096
            /\ provided (set_terminal l) = true
            /\ provided (get_entry l) = true.
Proof.
  destruct (level 0x3 0xffffffffffffffff 3) as [l |] eqn:Hl;
    [| discriminate Hl].
  exists l. split; [reflexivity |].
  destruct (level_descriptors 0x3 0xffffffffffffffff) as (_ & _ & Hall).
  destruct (Hall 3%nat l Hl) as (_ & Hps & Hst & _ & Hge & _).
  split; [apply Hps; reflexivity |].
  split; [apply Hst; reflexivity | exact Hge].
Defined.

(** ** Decoding does not look at the validity bit *)

(** Flipping bit 0 of an entry is invisible through a mask without bit 0. *)
Lemma land_flip_bit0 (e mask : Z) :
  Z.testbit mask 0 = false ->
  Z.land (Z.lxor e 1) mask = Z.land e mask.
Proof.
  intros Hm. apply Z.bits_inj'; intros i Hi. bits.
  destruct (Z.eq_dec i 0) as [-> | Hne].
  - now rewrite Hm, !andb_false_r.
  - rewrite field_0, testbit_field by lia.
    destruct (Z.leb_spec 0 i), (Z.ltb_spec i (0 + 1)); try lia.
    simpl. now rewrite xorb_false_r.
Qed.

Lemma call_get_phys_flip_bit0
    (dflt invalid : Z) (k : nat) (m m' : memory) (pte virt : Z) :
  load m' pte = Z.lxor (load m pte) 1 ->
  call_get_phys dflt invalid k m' pte virt
  = call_get_phys dflt invalid k m pte virt.
Proof.
  intros Hflip.
  destruct k as [| [| [| [| k]]]];
    unfold call_get_phys, level, x86_64_paging;
    cbn [nth_error get_phys option_map].
  - reflexivity.
  - unfold x86_64_get_phys_l3, X86_64_FLAG_HUGEPAGE.
    now rewrite Hflip, !land_flip_bit0.
  - unfold x86_64_get_phys_l2, X86_64_FLAG_HUGEPAGE.
    now rewrite Hflip, !land_flip_bit0.
  - unfold x86_64_get_phys_l1. now rewrite Hflip, !land_flip_bit0.
  - now destruct k.
Qed.

(** C9: no [get_phys] tests the validity bit.  The leaf [get_phys] of a
    cleared (zero, invalid) entry still returns a non-sentinel value,
    [virt & 0xFFF]; an intermediate-level entry that is invalid but has
    bit 7 set still decodes to a physical address; and at every level the
    result is the same whether bit 0 of the entry is set or not. *)
Theorem get_phys_ignores_validity
    (PAGE_DEFAULT_FLAGS INVALID_PHYS_ADDR : Z) (m : memory) (pte virt : Z) :
  sentinel_ok INVALID_PHYS_ADDR ->
  (let m0 := x86_64_clear_entry m pte in
   x86_64_entry_valid m0 pte = false
   /\ x86_64_get_phys_l1 m0 pte virt = Z.land virt 0xFFF
   /\ x86_64_get_phys_l1 m0 pte virt <> INVALID_PHYS_ADDR)
  /\ (x86_64_entry_valid m pte = false ->
      Z.testbit (load m pte) 7 = true ->
      x86_64_get_phys_l3 INVALID_PHYS_ADDR m pte virt
      = Z.lor (Z.land (load m pte) 0x000fffffc0000000) (Z.land virt 0x3fffffff)
      /\ x86_64_get_phys_l3 INVALID_PHYS_ADDR m pte virt <> INVALID_PHYS_ADDR
      /\ x86_64_get_phys_l2 INVALID_PHYS_ADDR m pte virt
         = Z.lor (Z.land (load m pte) 0x000fffffffe00000) (Z.land virt 0x1fffff)
      /\ x86_64_get_phys_l2 INVALID_PHYS_ADDR m pte virt <> INVALID_PHYS_ADDR)
  /\ (forall k m',
        load m' pte = Z.lxor (load m pte) 1 ->
        call_get_phys PAGE_DEFAULT_FLAGS INVALID_PHYS_ADDR k m' pte virt
        = call_get_phys PAGE_DEFAULT_FLAGS INVALID_PHYS_ADDR k m pte virt).
Proof.
  intros Hs. split; [| split].
  - cbv zeta.
    assert (Hleaf : x86_64_get_phys_l1 (x86_64_clear_entry m pte) pte virt
                    = Z.land virt 0xFFF).
    { unfold x86_64_get_phys_l1.
      now rewrite clear_entry_zero, Z.land_0_l, Z.lor_0_l. }
    split; [now rewrite entry_valid_bit0, clear_entry_zero |].
    split; [exact Hleaf |].
    unfold x86_64_get_phys_l1. now apply decoded_4k_real.
  - intros _ Hhuge.
    rewrite get_phys_l3_bit7, get_phys_l2_bit7, Hhuge.
    split; [reflexivity |]. split; [now apply decoded_1g_real |].
    split; [reflexivity |]. now apply decoded_2m_real.
  - intros k m' Hflip. now apply call_get_phys_flip_bit0.
Qed.

Lemma get_phys_ignores_validity_witness :
  x86_64_entry_valid (fun _ => 0x40000082) 0x5000 = false
  /\ x86_64_get_phys_l3 0xffffffffffffffff (fun _ => 0x40000082) 0x5000 0x40001234
     = 0x40001234
  /\ x86_64_get_phys_l1 (x86_64_clear_entry (fun _ => 0x40000082) 0x5000)
       0x5000 0x40001234
     = 0x234.
Proof.
  assert (Hs : sentinel_ok 0xffffffffffffffff).
  { unfold sentinel_ok, phys_range. lia. }
  destruct (get_phys_ignores_validity 0x3 0xffffffffffffffff
              (fun _ => 0x40000082) 0x5000 0x40001234 Hs)
    as ((_ & Hleaf & _) & Hmid & _).
  destruct (Hmid eq_refl eq_refl) as (Hl3 & _).
  split; [reflexivity |]. split; [exact Hl3 | exact Hleaf].
Defined.

(** ** Flags are stored unmasked *)

Lemma set_terminal_entry (m : memory) (pte phys flags : Z) :
  load (x86_64_set_terminal_l1 m pte phys flags) pte
  = Z.lor (Z.land phys 0x000ffffffffff000) flags.
Proof. unfold x86_64_set_terminal_l1. apply load_store_same. Qed.

Lemma get_phys_after_set_terminal (m : memory) (pte phys flags v : Z) :
  x86_64_get_phys_l1 (x86_64_set_terminal_l1 m pte phys flags) pte v
  = Z.lor (Z.lor (Z.land phys 0x000ffffffffff000)
                 (Z.land flags 0x000ffffffffff000))
          (Z.land v 0xFFF).
Proof.
  unfold x86_64_get_phys_l1.
  now rewrite set_terminal_entry, Z.land_lor_distr_l, <- Z.land_assoc, Z.land_diag.
Qed.

Lemma roundtrip_iff_field_clear (f : Z) :
  roundtrip_holds f <-> Z.land f 0x000ffffffffff000 = 0.
Proof.
  unfold roundtrip_holds. split.
  - intros Hrt.
    specialize (Hrt (fun _ => 0) 0 0 0 eq_refl ltac:(unfold phys_range; lia)).
    rewrite get_phys_after_set_terminal in Hrt.
    now rewrite !Z.land_0_l, Z.lor_0_l, Z.lor_0_r in Hrt.
  - intros Hf m pte v p Hal Hr.
    rewrite get_phys_after_set_terminal, Hf, Z.lor_0_r.
    now rewrite aligned_in_range_field.
Qed.

(** C10 (as amended): the leaf [set_terminal] masks the physical address
    to bits 12..51 and stores the flags unmasked - every set bit of
    [flags], bit 7 and bits 12 and above included, is set in the entry, and
    outside bits 12..51 the entry is [flags] bit for bit.  What [get_phys]
    reads back is the address field of the entry, so the flag bits 12..51
    come back as part of the physical address while the flag bits 0..11 and
    52..63 do not: the round trip holds for a flags value exactly when it
    has no bit in positions 12..51. *)
Theorem set_terminal_keeps_flags (m : memory) (pte phys flags : Z) :
  let e := load (x86_64_set_terminal_l1 m pte phys flags) pte in
  e = Z.lor (Z.land phys 0x000ffffffffff000) flags
  /\ (forall i, Z.testbit flags i = true -> Z.testbit e i = true)
  /\ (forall i, ~ 12 <= i < 52 -> Z.testbit e i = Z.testbit flags i)
  /\ (forall v,
        x86_64_get_phys_l1 (x86_64_set_terminal_l1 m pte phys flags) pte v
        = Z.lor (Z.lor (Z.land phys 0x000ffffffffff000)
                       (Z.land flags 0x000ffffffffff000))
                (Z.land v 0xFFF))
  /\ (roundtrip_holds flags <-> Z.land flags 0x000ffffffffff000 = 0).
Proof.
  cbv zeta. rewrite set_terminal_entry.
  split; [reflexivity |].
  split.
  { intros i Hi. rewrite Z.lor_spec, Hi. apply orb_true_r. }
  split.
  { intros i Hi. fields. bits.
    destruct (Z.leb_spec 12 i), (Z.ltb_spec i (12 + 40)); try lia;
      simpl; now rewrite ?andb_false_r. }
  split; [intros v; apply get_phys_after_set_terminal |].
  apply roundtrip_iff_field_clear.
Qed.

(** C10 (as stated) fails: a flags value with bit 63 set is not confined
    to bits 0..11, yet the round trip holds for it, bit 63 being outside
    the field that [get_phys] reads. *)
Lemma roundtrip_with_bit63_flag :
  roundtrip_holds 0x8000000000000001
  /\ ~ confined_to_bits_0_11 0x8000000000000001
  /\ x86_64_get_phys_l1
       (x86_64_set_terminal_l1 (fun _ => 0) 0x5000 0x2000 0x8000000000000001)
       0x5000 0x1234
     = 0x2234.
Proof.
  split; [| split].
  - apply roundtrip_iff_field_clear. reflexivity.
  - unfold confined_to_bits_0_11. discriminate.
  - reflexivity.
Qed.

(** ** Concrete checks *)

(** A 1 GiB mapping with base [0x40000000] found at level 1 for the
    virtual address [0x40001234]. *)
Example huge_1g_lookup :
  x86_64_get_entry_l3 0x9000 0x40001234 = 0x9008
  /\ x86_64_get_phys_l3 0xffffffffffffffff
       (store (fun _ => 0) 0x9008 0x40000083) 0x9008 0x40001234
     = 0x40001234.
Proof. split; reflexivity. Qed.

(** Without the marker the same entry is a table link, not a mapping. *)
Example not_huge_is_invalid :
  x86_64_get_phys_l3 0xffffffffffffffff
    (store (fun _ => 0) 0x9008 0x40000003) 0x9008 0x40001234
  = 0xffffffffffffffff.
Proof. reflexivity. Qed.

(** The emptiness test reads the 512 slots of the page and nothing else. *)
Example empty_table_checks :
  x86_64_page_table_empty (fun _ => 0) 0x9000 = true
  /\ x86_64_page_table_empty
       (store (fun _ => 0) (index_ptr 0x9000 511) 0x1) 0x9000 = false
  /\ x86_64_page_table_empty
       (store (fun _ => 0) (index_ptr 0x9000 512) 0x1) 0x9000 = true.
Proof. repeat split; vm_compute; reflexivity. Qed.

(** Linking and then unlinking a table leaves an invalid, flagless slot. *)
Example link_then_clear :
  let m1 := x86_64_set_next_pt 0x3 (fun _ => 0) 0x9000 0xa000 in
  let m2 := x86_64_clear_entry m1 0x9000 in
  load m1 0x9000 = 0xa003
  /\ x86_64_get_next_pt_l4 m1 0x9000 = 0xa000
  /\ x86_64_entry_valid m2 0x9000 = false
  /\ x86_64_get_flags m2 0x9000 = 0.
Proof. repeat split. Qed.

(** * Further properties of the level operations *)

(** ** Slots and tables *)

Lemma index_ptr_inj (t i j : Z) : index_ptr t i = index_ptr t j -> i = j.
Proof. unfold index_ptr, sizeof_u64. lia. Qed.

Lemma call_get_entry_field (dflt invalid : Z) (k : nat) (t virt : Z) :
  (k < 4)%nat ->
  call_get_entry dflt invalid k t virt
  = Some (index_ptr t (vaddr_field virt (level_shift k))).
Proof.
  intros Hk.
  destruct k as [| [| [| [| k]]]]; [| | | | lia];
    unfold call_get_entry, level, x86_64_paging;
    cbn [nth_error get_entry option_map level_shift];
    unfold x86_64_get_entry_l4, x86_64_get_entry_l3,
           x86_64_get_entry_l2, x86_64_get_entry_l1;
    now rewrite index_is_field by lia.
Qed.

Lemma level_shift_nonneg (k : nat) : 0 <= level_shift k.
Proof. destruct k as [| [| [| k]]]; simpl; lia. Qed.

(** Every index is reached: slot [n] is the one selected for the address
    [n * 2 ^ lo]. *)
Lemma vaddr_field_onto (n lo : Z) :
  0 <= lo -> 0 <= n < 512 -> vaddr_field (n * 2 ^ lo) lo = n.
Proof.
  intros Hlo Hn. unfold vaddr_field.
  rewrite Z.div_mul by (apply Z.pow_nonzero; lia).
  apply Z.mod_small. change (2 ^ 9) with 512. lia.
Qed.

(** X1: the slot that [get_entry] selects, at any level and for any
    virtual address, is one of the 512 eight-byte slots of the table page
    it is given: it never points outside the page. *)
Theorem get_entry_within_table
    (PAGE_DEFAULT_FLAGS INVALID_PHYS_ADDR : Z) (k : nat) (page_table virt : Z) :
  (k < 4)%nat ->
  exists pte n,
    call_get_entry PAGE_DEFAULT_FLAGS INVALID_PHYS_ADDR k page_table virt
    = Some pte
    /\ pte = index_ptr page_table n
    /\ 0 <= n < PAGE_SIZE / sizeof_u64
    /\ page_table <= pte
    /\ pte + sizeof_u64 <= page_table + PAGE_SIZE.
Proof.
  intros Hk.
  exists (index_ptr page_table (vaddr_field virt (level_shift k))),
         (vaddr_field virt (level_shift k)).
  pose proof (vaddr_field_range virt (level_shift k)) as Hr.
  split; [now apply call_get_entry_field |].
  split; [reflexivity |].
  change (PAGE_SIZE / sizeof_u64) with 512.
  unfold index_ptr, sizeof_u64, PAGE_SIZE. lia.
Qed.

Lemma get_entry_within_table_witness :
  exists pte n,
    call_get_entry 0x3 0xffffffffffffffff 2 0x9000 0xffffffffffffffff = Some pte
    /\ pte = index_ptr 0x9000 n
    /\ 0 <= n < PAGE_SIZE / sizeof_u64
    /\ 0x9000 <= pte
    /\ pte + sizeof_u64 <= 0x9000 + PAGE_SIZE.
Proof.
  apply (get_entry_within_table 0x3 0xffffffffffffffff 2 0x9000
           0xffffffffffffffff).
  lia.
Defined.

Lemma page_table_empty_selection
    (dflt invalid : Z) (k : nat) (m : memory) (page_table : Z) :
  (k < 4)%nat ->
  x86_64_page_table_empty m page_table = true
  <-> (forall virt pte,
         call_get_entry dflt invalid k page_table virt = Some pte ->
         x86_64_entry_valid m pte = false).
Proof.
  intros Hk. rewrite page_table_empty_true. split.
  - intros Hall virt pte Hsel.
    rewrite call_get_entry_field in Hsel by exact Hk. injection Hsel as <-.
    apply Hall. pose proof (vaddr_field_range virt (level_shift k)). lia.
  - intros Hall n Hn.
    apply (Hall (n * 2 ^ level_shift k)).
    rewrite call_get_entry_field by exact Hk.
    now rewrite vaddr_field_onto by (try apply level_shift_nonneg; lia).
Qed.

(** X2: a table is empty exactly when, at whichever level it is used, the
    entry selected for every virtual address is invalid. *)
Theorem empty_iff_no_valid_selection
    (PAGE_DEFAULT_FLAGS INVALID_PHYS_ADDR : Z) (k : nat)
    (m : memory) (page_table : Z) :
  (k < 4)%nat ->
  x86_64_page_table_empty m page_table = true
  <-> (forall virt pte,
         call_get_entry PAGE_DEFAULT_FLAGS INVALID_PHYS_ADDR k page_table virt
         = Some pte ->
         x86_64_entry_valid m pte = false).
Proof.
  intros Hk. rewrite page_table_empty_true. split.
  - intros Hall virt pte Hsel.
    rewrite call_get_entry_field in Hsel by exact Hk. injection Hsel as <-.
    apply Hall. pose proof (vaddr_field_range virt (level_shift k)). lia.
  - intros Hall n Hn.
    apply (Hall (n * 2 ^ level_shift k)).
    rewrite call_get_entry_field by exact Hk.
    now rewrite vaddr_field_onto by (try apply level_shift_nonneg; lia).
Qed.

Lemma empty_iff_no_valid_selection_witness :
  x86_64_page_table_empty (fun _ => 0) 0x9000 = true
  <-> (forall virt pte,
         call_get_entry 0x3 0xffffffffffffffff 3 0x9000 virt = Some pte ->
         x86_64_entry_valid (fun _ => 0) pte = false).
Proof.
  apply (empty_iff_no_valid_selection 0x3 0xffffffffffffffff 3
           (fun _ => 0) 0x9000).
  lia.
Defined.

(** ** Writing entries *)

(** What a reader returns depends on memory through the one slot only. *)
Lemma readers_depend_on_slot
    (dflt invalid : Z) (m m' : memory) (pte : Z) :
  load m' pte = load m pte ->
  x86_64_entry_valid m' pte = x86_64_entry_valid m pte
  /\ x86_64_get_flags m' pte = x86_64_get_flags m pte
  /\ (forall j v, call_get_phys dflt invalid j m' pte v
                  = call_get_phys dflt invalid j m pte v)
  /\ (forall j, call_get_next_pt dflt invalid j m' pte
                = call_get_next_pt dflt invalid j m pte).
Proof.
  intros Hsame.
  split; [unfold x86_64_entry_valid; now rewrite Hsame |].
  split; [unfold x86_64_get_flags; now rewrite Hsame |].
  split.
  - intros j v.
    destruct j as [| [| [| [| j]]]];
      unfold call_get_phys, level, x86_64_paging;
      cbn [nth_error get_phys option_map];
      unfold page_map_get_phys_invalid, x86_64_get_phys_l3,
             x86_64_get_phys_l2, x86_64_get_phys_l1;
      rewrite ?Hsame; try reflexivity.
    now destruct j.
  - intros j.
    destruct j as [| [| [| [| j]]]];
      unfold call_get_next_pt, level, x86_64_paging;
      cbn [nth_error get_next_pt option_map];
      unfold x86_64_get_next_pt_l4, x86_64_get_next_pt_l23;
      rewrite ?Hsame; try reflexivity.
    now destruct j.
Qed.

(** The three functions that write an entry. *)
Lemma writers_touch_one_slot
    (dflt : Z) (m m' : memory) (pte p f next : Z) :
  m' = x86_64_set_terminal_l1 m pte p f
  \/ m' = x86_64_set_next_pt dflt m pte next
  \/ m' = x86_64_clear_entry m pte ->
  forall q, q <> pte -> load m' q = load m q.
Proof.
  intros [-> | [-> | ->]] q Hq;
    unfold x86_64_set_terminal_l1, x86_64_set_next_pt, x86_64_clear_entry;
    now apply load_store_other.
Qed.

Lemma entry_valid_same_slot (m m' : memory) (pte : Z) :
  load m' pte = load m pte ->
  x86_64_entry_valid m' pte = x86_64_entry_valid m pte.
Proof. intros H. unfold x86_64_entry_valid. now rewrite H. Qed.

Lemma page_table_empty_same_slots (m m' : memory) (t : Z) :
  (forall n, 0 <= n < 512 -> load m' (index_ptr t n) = load m (index_ptr t n)) ->
  x86_64_page_table_empty m' t = x86_64_page_table_empty m t.
Proof.
  intros Hsame.
  assert (Himp : forall a b : memory,
             (forall n, 0 <= n < 512 ->
                load a (index_ptr t n) = load b (index_ptr t n)) ->
             x86_64_page_table_empty a t = true ->
             x86_64_page_table_empty b t = true).
  { intros a b Hab. rewrite !page_table_empty_true. intros Hall n Hn.
    rewrite <- (entry_valid_same_slot b a) by (apply Hab; exact Hn).
    now apply Hall. }
  destruct (x86_64_page_table_empty m t) eqn:Hm.
  - apply (Himp m m'); [| exact Hm]. intros n Hn. symmetry. now apply Hsame.
  - destruct (x86_64_page_table_empty m' t) eqn:Hm'; [| reflexivity].
    rewrite <- Hm. symmetry. now apply (Himp m' m).
Qed.

Lemma valid_slot_not_empty (m : memory) (t n : Z) :
  0 <= n < 512 ->
  x86_64_entry_valid m (index_ptr t n) = true ->
  x86_64_page_table_empty m t = false.
Proof.
  intros Hn Hv.
  destruct (x86_64_page_table_empty m t) eqn:He; [| reflexivity].
  rewrite page_table_empty_true in He. rewrite (He n Hn) in Hv. discriminate.
Qed.

(** X3: once an entry of a table has been written with the validity bit -
    by the leaf [set_terminal] with flags that carry bit 0, or by
    [set_next_pt] when the default flags do - the table is no longer
    empty. *)
Theorem written_entry_makes_table_nonempty
    (PAGE_DEFAULT_FLAGS INVALID_PHYS_ADDR : Z) (k : nat)
    (m : memory) (page_table virt pte : Z) :
  (k < 4)%nat ->
  call_get_entry PAGE_DEFAULT_FLAGS INVALID_PHYS_ADDR k page_table virt
  = Some pte ->
  (forall p f,
     validity_bit f = true ->
     x86_64_page_table_empty (x86_64_set_terminal_l1 m pte p f) page_table
     = false)
  /\ (validity_bit PAGE_DEFAULT_FLAGS = true ->
      forall next,
        x86_64_page_table_empty
          (x86_64_set_next_pt PAGE_DEFAULT_FLAGS m pte next) page_table
        = false).
Proof.
  intros Hk Hsel.
  rewrite call_get_entry_field in Hsel by exact Hk. injection Hsel as <-.
  pose proof (vaddr_field_range virt (level_shift k)) as Hr.
  unfold validity_bit. split.
  - intros p f Hf.
    apply (valid_slot_not_empty _ _ (vaddr_field virt (level_shift k))); [lia |].
    rewrite entry_valid_bit0, set_terminal_entry, Z.lor_spec, Hf.
    apply orb_true_r.
  - intros Hd next.
    apply (valid_slot_not_empty _ _ (vaddr_field virt (level_shift k))); [lia |].
    rewrite entry_valid_bit0, set_next_pt_entry, Z.lor_spec, Hd.
    apply orb_true_r.
Qed.

Lemma written_entry_makes_table_nonempty_witness :
  x86_64_page_table_empty
    (x86_64_set_terminal_l1 (fun _ => 0) (0x9000 + 8) 0x2000 0x3) 0x9000
  = false.
Proof.
  destruct (written_entry_makes_table_nonempty 0x3 0xffffffffffffffff 3
              (fun _ => 0) 0x9000 0x1000 (0x9000 + 8) ltac:(lia) eq_refl)
    as [Hterm _].
  apply Hterm. reflexivity.
Defined.

(** X4: clearing the entry selected for an address leaves the table empty
    exactly when no other entry of that table was valid. *)
Theorem clear_entry_empties_iff_last
    (PAGE_DEFAULT_FLAGS INVALID_PHYS_ADDR : Z) (k : nat)
    (m : memory) (page_table virt pte : Z) :
  (k < 4)%nat ->
  call_get_entry PAGE_DEFAULT_FLAGS INVALID_PHYS_ADDR k page_table virt
  = Some pte ->
  x86_64_page_table_empty (x86_64_clear_entry m pte) page_table = true
  <-> (forall virt' pte',
         call_get_entry PAGE_DEFAULT_FLAGS INVALID_PHYS_ADDR k page_table virt'
         = Some pte' ->
         pte' <> pte ->
         x86_64_entry_valid m pte' = false).
Proof.
  intros Hk Hsel.
  rewrite (page_table_empty_selection PAGE_DEFAULT_FLAGS INVALID_PHYS_ADDR k)
    by exact Hk.
  split.
  - intros Hall virt' pte' Hsel' Hne.
    rewrite <- (entry_valid_same_slot m (x86_64_clear_entry m pte)).
    + now apply (Hall virt').
    + unfold x86_64_clear_entry. now apply load_store_other.
  - intros Hall virt' pte' Hsel'.
    destruct (Z.eq_dec pte' pte) as [-> | Hne].
    + now rewrite entry_valid_bit0, clear_entry_zero.
    + rewrite (entry_valid_same_slot m (x86_64_clear_entry m pte)).
      * now apply (Hall virt').
      * unfold x86_64_clear_entry. now apply load_store_other.
Qed.

Lemma clear_entry_empties_iff_last_witness :
  x86_64_page_table_empty
    (x86_64_clear_entry (store (fun _ => 0) (0x9000 + 8) 0x2003) (0x9000 + 8))
    0x9000
  = true.
Proof.
  apply (clear_entry_empties_iff_last 0x3 0xffffffffffffffff 3
           (store (fun _ => 0) (0x9000 + 8) 0x2003) 0x9000 0x1000 (0x9000 + 8)
           ltac:(lia) eq_refl).
  intros virt' pte' _ Hne.
  rewrite entry_valid_bit0, load_store_other by exact Hne. reflexivity.
Defined.

(** X5: writing the entry selected for one address - with [set_terminal],
    [set_next_pt] or [clear_entry] - leaves the entry selected for any
    address with a different index at that level as it was: its validity,
    flags, decoded physical address and next-table pointer do not change. *)
Theorem write_leaves_other_entries
    (PAGE_DEFAULT_FLAGS INVALID_PHYS_ADDR : Z) (k : nat)
    (m m' : memory) (page_table v1 v2 pte1 pte2 p f next : Z) :
  (k < 4)%nat ->
  call_get_entry PAGE_DEFAULT_FLAGS INVALID_PHYS_ADDR k page_table v1
  = Some pte1 ->
  call_get_entry PAGE_DEFAULT_FLAGS INVALID_PHYS_ADDR k page_table v2
  = Some pte2 ->
  vaddr_field v1 (level_shift k) <> vaddr_field v2 (level_shift k) ->
  m' = x86_64_set_terminal_l1 m pte1 p f
  \/ m' = x86_64_set_next_pt PAGE_DEFAULT_FLAGS m pte1 next
  \/ m' = x86_64_clear_entry m pte1 ->
  x86_64_entry_valid m' pte2 = x86_64_entry_valid m pte2
  /\ x86_64_get_flags m' pte2 = x86_64_get_flags m pte2
  /\ (forall j v,
        call_get_phys PAGE_DEFAULT_FLAGS INVALID_PHYS_ADDR j m' pte2 v
        = call_get_phys PAGE_DEFAULT_FLAGS INVALID_PHYS_ADDR j m pte2 v)
  /\ (forall j,
        call_get_next_pt PAGE_DEFAULT_FLAGS INVALID_PHYS_ADDR j m' pte2
        = call_get_next_pt PAGE_DEFAULT_FLAGS INVALID_PHYS_ADDR j m pte2).
Proof.
  intros Hk H1 H2 Hidx Hw.
  rewrite call_get_entry_field in H1, H2 by exact Hk.
  injection H1 as <-. injection H2 as <-.
  apply readers_depend_on_slot.
  apply (writers_touch_one_slot PAGE_DEFAULT_FLAGS m m' _ p f next Hw).
  intros Heq. apply Hidx. symmetry. exact (index_ptr_inj _ _ _ Heq).
Qed.

Lemma write_leaves_other_entries_witness :
  let m := store (fun _ => 0) (0x9000 + 16) 0x7003 in
  let m' := x86_64_set_terminal_l1 m (0x9000 + 8) 0x2000 0x3 in
  x86_64_entry_valid m' (0x9000 + 16) = x86_64_entry_valid m (0x9000 + 16)
  /\ x86_64_get_flags m' (0x9000 + 16) = x86_64_get_flags m (0x9000 + 16).
Proof.
  cbv zeta.
  destruct (write_leaves_other_entries 0x3 0xffffffffffffffff 3
              (store (fun _ => 0) (0x9000 + 16) 0x7003)
              (x86_64_set_terminal_l1
                 (store (fun _ => 0) (0x9000 + 16) 0x7003)
                 (0x9000 + 8) 0x2000 0x3)
              0x9000 0x1000 0x2000 (0x9000 + 8) (0x9000 + 16)
              0x2000 0x3 0
              ltac:(lia) eq_refl eq_refl ltac:(discriminate)
              (or_introl eq_refl))
    as (Hv & Hf & _).
  split; [exact Hv | exact Hf].
Defined.

Lemma aligned_pages_apart (t1 t2 : Z) :
  page_aligned t1 -> page_aligned t2 -> t1 <> t2 ->
  t1 + PAGE_SIZE <= t2 \/ t2 + PAGE_SIZE <= t1.
Proof.
  unfold page_aligned, PAGE_SIZE. intros H1 H2 Hne.
  pose proof (Z.div_mod t1 4096 ltac:(lia)).
  pose proof (Z.div_mod t2 4096 ltac:(lia)).
  lia.
Qed.

(** X6: tables are distinct pages, so writing an entry of one table - with
    any of the three writers - never changes whether another table is
    empty. *)
Theorem write_keeps_other_table_emptiness
    (PAGE_DEFAULT_FLAGS INVALID_PHYS_ADDR : Z) (k : nat)
    (m m' : memory) (table other virt pte p f next : Z) :
  (k < 4)%nat ->
  page_aligned table -> page_aligned other -> table <> other ->
  call_get_entry PAGE_DEFAULT_FLAGS INVALID_PHYS_ADDR k table virt = Some pte ->
  m' = x86_64_set_terminal_l1 m pte p f
  \/ m' = x86_64_set_next_pt PAGE_DEFAULT_FLAGS m pte next
  \/ m' = x86_64_clear_entry m pte ->
  x86_64_page_table_empty m' other = x86_64_page_table_empty m other.
Proof.
  intros Hk Ht Ho Hne Hsel Hw.
  rewrite call_get_entry_field in Hsel by exact Hk. injection Hsel as <-.
  apply page_table_empty_same_slots. intros n Hn.
  apply (writers_touch_one_slot PAGE_DEFAULT_FLAGS m m' _ p f next Hw).
  pose proof (vaddr_field_range virt (level_shift k)) as Hr.
  pose proof (aligned_pages_apart table other Ht Ho Hne) as Hapart.
  unfold index_ptr, sizeof_u64, PAGE_SIZE in *. lia.
Qed.

Lemma write_keeps_other_table_emptiness_witness :
  x86_64_page_table_empty
    (x86_64_set_terminal_l1 (fun _ => 0) (0x9000 + 8) 0x2000 0x3) 0xa000
  = x86_64_page_table_empty (fun _ => 0) 0xa000.
Proof.
  apply (write_keeps_other_table_emptiness 0x3 0xffffffffffffffff 3
           (fun _ => 0) _ 0x9000 0xa000 0x1000 (0x9000 + 8) 0x2000 0x3 0).
  - lia.
  - reflexivity.
  - reflexivity.
  - discriminate.
  - reflexivity.
  - left. reflexivity.
Defined.

(** ** Decoded addresses as sums *)

Lemma lor_disjoint_add (a b : Z) : Z.land a b = 0 -> Z.lor a b = a + b.
Proof.
  intros Hd. now rewrite <- Z.lxor_lor, Z.add_nocarry_lxor by exact Hd.
Qed.

Lemma low_mask_mod (v lo : Z) :
  0 <= lo -> Z.land v (Z.shiftl (Z.ones lo) 0) = v mod 2 ^ lo.
Proof. intros Hlo. rewrite Z.shiftl_0_r. now apply Z.land_ones. Qed.

Lemma field_low_disjoint (e v lo n : Z) :
  0 <= lo -> 0 <= n ->
  Z.land (Z.land e (Z.shiftl (Z.ones n) lo))
         (Z.land v (Z.shiftl (Z.ones lo) 0)) = 0.
Proof.
  intros Hlo Hn. apply Z.bits_inj'; intros i Hi. bits.
  split_ranges; try lia; simpl; now rewrite ?andb_false_r.
Qed.

(** The decoded address is the base plus the offset within the page. *)
Lemma decoded_sum (e v lo n : Z) :
  0 <= lo -> 0 <= n ->
  Z.lor (Z.land e (Z.shiftl (Z.ones n) lo))
        (Z.land v (Z.shiftl (Z.ones lo) 0))
  = Z.land e (Z.shiftl (Z.ones n) lo) + v mod 2 ^ lo.
Proof.
  intros Hlo Hn.
  rewrite lor_disjoint_add by (now apply field_low_disjoint).
  now rewrite low_mask_mod.
Qed.

Lemma offset_advance (v delta lo : Z) :
  0 <= lo -> 0 <= delta -> v mod 2 ^ lo + delta < 2 ^ lo ->
  (v + delta) mod 2 ^ lo = v mod 2 ^ lo + delta.
Proof.
  intros Hlo Hd Hfit.
  rewrite <- Zplus_mod_idemp_l. apply Z.mod_small.
  pose proof (Z.mod_pos_bound v (2 ^ lo) ltac:(apply Z.pow_pos_nonneg; lia)).
  lia.
Qed.

Lemma decoded_advance (e v delta lo n : Z) :
  0 <= lo -> 0 <= n -> 0 <= delta -> v mod 2 ^ lo + delta < 2 ^ lo ->
  Z.lor (Z.land e (Z.shiftl (Z.ones n) lo))
        (Z.land (v + delta) (Z.shiftl (Z.ones lo) 0))
  = Z.lor (Z.land e (Z.shiftl (Z.ones n) lo))
          (Z.land v (Z.shiftl (Z.ones lo) 0)) + delta.
Proof.
  intros Hlo Hn Hd Hfit.
  rewrite !decoded_sum, offset_advance by assumption. lia.
Qed.

(** X7: translation is contiguous inside a page.  When [get_phys] of a
    level below the root decodes an address for [virt] (a 4 KiB page at
    the leaf, a 2 MiB or 1 GiB page at the intermediate levels), then for
    every [virt + delta] that stays in the same page of that size it
    decodes the address advanced by [delta]. *)
Theorem get_phys_contiguous
    (PAGE_DEFAULT_FLAGS INVALID_PHYS_ADDR : Z) (k : nat)
    (m : memory) (pte virt delta r : Z) :
  (1 <= k < 4)%nat ->
  0 <= delta ->
  virt mod 2 ^ level_shift k + delta < 2 ^ level_shift k ->
  call_get_phys PAGE_DEFAULT_FLAGS INVALID_PHYS_ADDR k m pte virt = Some r ->
  r <> INVALID_PHYS_ADDR ->
  call_get_phys PAGE_DEFAULT_FLAGS INVALID_PHYS_ADDR k m pte (virt + delta)
  = Some (r + delta).
Proof.
  intros Hk Hd Hfit Hr Hreal.
  destruct k as [| [| [| [| k]]]]; [lia | | | | lia];
    unfold call_get_phys, level, x86_64_paging in *;
    cbn [nth_error get_phys option_map level_shift] in *.
  - rewrite get_phys_l3_bit7 in *.
    destruct (Z.testbit (load m pte) 7); injection Hr as <-; [| congruence].
    f_equal. fields. apply decoded_advance; lia.
  - rewrite get_phys_l2_bit7 in *.
    destruct (Z.testbit (load m pte) 7); injection Hr as <-; [| congruence].
    f_equal. fields. apply decoded_advance; lia.
  - unfold x86_64_get_phys_l1 in *. injection Hr as <-.
    f_equal. fields. apply decoded_advance; lia.
Qed.

Lemma get_phys_contiguous_witness :
  call_get_phys 0x3 0xffffffffffffffff 2 (fun _ => 0x600083) 0x5000
    (0x200100 + 0x1000)
  = Some (0x600100 + 0x1000).
Proof.
  apply (get_phys_contiguous 0x3 0xffffffffffffffff 2 (fun _ => 0x600083)
           0x5000 0x200100 0x1000 0x600100).
  - lia.
  - lia.
  - reflexivity.
  - reflexivity.
  - discriminate.
Defined.

(** ** Table pointers *)

Lemma land_field_12_51 (t : Z) :
  Z.land t 0x000ffffffffff000 = t mod 2 ^ 52 - t mod 2 ^ 12.
Proof.
  assert (Hsplit : t mod 2 ^ 52
                   = Z.land t 0x000ffffffffff000 + t mod 2 ^ 12).
  { rewrite <- (Z.land_ones t 52) by lia.
    change (Z.ones 52) with (Z.lor 0x000ffffffffff000 0xfff).
    rewrite Z.land_lor_distr_r. fields.
    rewrite (decoded_sum t t 12 40) by lia. reflexivity. }
  lia.
Qed.

(** X8: whatever an entry holds, the next-table pointer read from it at a
    non-leaf level is a page-aligned address below 2^52. *)
Theorem get_next_pt_aligned
    (PAGE_DEFAULT_FLAGS INVALID_PHYS_ADDR : Z) (k : nat)
    (m : memory) (pte : Z) :
  (k < 3)%nat ->
  exists t,
    call_get_next_pt PAGE_DEFAULT_FLAGS INVALID_PHYS_ADDR k m pte = Some t
    /\ page_aligned t /\ phys_range t.
Proof.
  intros Hk. exists (Z.land (load m pte) 0x000ffffffffff000). split.
  - destruct k as [| [| [| k]]]; [| | | lia]; reflexivity.
  - apply field_fixed_aligned_in_range.
    now rewrite <- Z.land_assoc, Z.land_diag.
Qed.

Lemma get_next_pt_aligned_witness :
  exists t,
    call_get_next_pt 0x3 0xffffffffffffffff 1
      (fun _ => 0xffffffffffffffff) 0x5000 = Some t
    /\ page_aligned t /\ phys_range t.
Proof.
  apply (get_next_pt_aligned 0x3 0xffffffffffffffff 1). lia.
Defined.

(** X9: [set_next_pt] keeps only bits 12..51 of the address it is given:
    reading the link back yields the address reduced to 52 bits and
    rounded down to its page boundary (provided the default flags keep
    clear of the address field). *)
Theorem set_next_pt_rounds_down
    (PAGE_DEFAULT_FLAGS INVALID_PHYS_ADDR : Z) (k : nat)
    (m : memory) (pte next_pt : Z) :
  Z.land PAGE_DEFAULT_FLAGS 0x000ffffffffff000 = 0 ->
  (k < 3)%nat ->
  call_get_next_pt PAGE_DEFAULT_FLAGS INVALID_PHYS_ADDR k
    (x86_64_set_next_pt PAGE_DEFAULT_FLAGS m pte next_pt) pte
  = Some (next_pt mod 2 ^ 52 - next_pt mod PAGE_SIZE).
Proof.
  intros Hd Hk.
  assert (Hfield : Z.land (load (x86_64_set_next_pt PAGE_DEFAULT_FLAGS m pte
                                   next_pt) pte) 0x000ffffffffff000
                   = next_pt mod 2 ^ 52 - next_pt mod PAGE_SIZE).
  { rewrite set_next_pt_entry, Z.land_lor_distr_l, Hd, Z.lor_0_r.
    rewrite <- Z.land_assoc, Z.land_diag. apply land_field_12_51. }
  destruct k as [| [| [| k]]]; [| | | lia];
    unfold call_get_next_pt, level, x86_64_paging;
    cbn [nth_error get_next_pt option_map];
    unfold x86_64_get_next_pt_l4, x86_64_get_next_pt_l23;
    now rewrite Hfield.
Qed.

Lemma set_next_pt_rounds_down_witness :
  call_get_next_pt 0x3 0xffffffffffffffff 0
    (x86_64_set_next_pt 0x3 (fun _ => 0) 0x5000 0x7abc) 0x5000
  = Some 0x7000.
Proof.
  apply (set_next_pt_rounds_down 0x3 0xffffffffffffffff 0 (fun _ => 0)
           0x5000 0x7abc).
  - reflexivity.
  - lia.
Defined.

(** X10: the leaf [set_terminal] likewise drops the sub-page bits (and the
    bits from 52 up) of the physical address: for flags that keep clear of
    bits 12..51, the lookup returns the page base of [phys] plus the page
    offset of [virt]. *)
Theorem set_terminal_rounds_down (m : memory) (pte phys flags virt : Z) :
  Z.land flags 0x000ffffffffff000 = 0 ->
  x86_64_get_phys_l1 (x86_64_set_terminal_l1 m pte phys flags) pte virt
  = (phys mod 2 ^ 52 - phys mod PAGE_SIZE) + virt mod PAGE_SIZE.
Proof.
  intros Hf.
  rewrite get_phys_after_set_terminal, Hf, Z.lor_0_r. fields.
  rewrite (decoded_sum phys virt 12 40) by lia.
  rewrite <- field_12_51, land_field_12_51. reflexivity.
Qed.

Lemma set_terminal_rounds_down_witness :
  x86_64_get_phys_l1
    (x86_64_set_terminal_l1 (fun _ => 0) 0x5000 0x2fff
       0x8000000000000003) 0x5000 0x1234
  = 0x2234.
Proof.
  apply (set_terminal_rounds_down (fun _ => 0) 0x5000 0x2fff
           0x8000000000000003 0x1234).
  reflexivity.
Defined.

(** ** Flags of written entries *)

Lemma field_below_12_clear (a mask : Z) :
  0 <= mask < 2 ^ 12 -> Z.land (Z.land a 0x000ffffffffff000) mask = 0.
Proof.
  intros Hm. apply Z.bits_inj'; intros i Hi. fields. bits.
  destruct (Z.leb_spec 12 i).
  - rewrite (high_bits_clear_of_lt mask 12) by lia. apply andb_false_r.
  - simpl. now rewrite andb_false_r.
Qed.

(** X11: no bit of the address reaches the flags.  After the leaf
    [set_terminal], [get_flags] returns [flags & 0x7f] and [entry_valid]
    is bit 0 of [flags], whatever the physical address; after
    [set_next_pt], [get_flags] returns the default flags masked with
    [0x7f].  In any memory, [entry_valid] is bit 0 of what [get_flags]
    returns. *)
Theorem flags_of_written_entry
    (PAGE_DEFAULT_FLAGS : Z) (m : memory) (pte phys flags next_pt : Z) :
  x86_64_get_flags (x86_64_set_terminal_l1 m pte phys flags) pte
  = Z.land flags 0x7f
  /\ x86_64_entry_valid (x86_64_set_terminal_l1 m pte phys flags) pte
     = validity_bit flags
  /\ x86_64_get_flags (x86_64_set_next_pt PAGE_DEFAULT_FLAGS m pte next_pt) pte
     = Z.land PAGE_DEFAULT_FLAGS 0x7f
  /\ x86_64_entry_valid (x86_64_set_next_pt PAGE_DEFAULT_FLAGS m pte next_pt) pte
     = validity_bit PAGE_DEFAULT_FLAGS
  /\ x86_64_entry_valid m pte = Z.testbit (x86_64_get_flags m pte) 0.
Proof.
  unfold validity_bit.
  assert (Hlow : forall a b, Z.land (Z.lor (Z.land a 0x000ffffffffff000) b) 0x7f
                             = Z.land b 0x7f).
  { intros a b. rewrite Z.land_lor_distr_l, field_below_12_clear by lia.
    apply Z.lor_0_l. }
  assert (Hbit : forall a b,
             Z.testbit (Z.lor (Z.land a 0x000ffffffffff000) b) 0
             = Z.testbit b 0).
  { intros a b. fields. bits.
    change ((12 <=? 0) && (0 <? 12 + 40)) with false.
    now rewrite andb_false_r. }
  split; [unfold x86_64_get_flags; now rewrite set_terminal_entry |].
  split; [now rewrite entry_valid_bit0, set_terminal_entry |].
  split; [unfold x86_64_get_flags; now rewrite set_next_pt_entry |].
  split; [now rewrite entry_valid_bit0, set_next_pt_entry |].
  rewrite entry_valid_bit0. unfold x86_64_get_flags.
  rewrite get_flags_bits. simpl. now rewrite andb_true_r.
Qed.

(** ** Entries that are not mappings *)

(** X12: an entry just linked with [set_next_pt] (the default flags not
    carrying the huge-page marker) or just cleared never decodes as a
    mapping above the leaf: [get_phys] of every non-leaf level returns the
    sentinel for it, for every virtual address. *)
Theorem linked_or_cleared_not_huge
    (PAGE_DEFAULT_FLAGS INVALID_PHYS_ADDR : Z) (k : nat)
    (m : memory) (pte next_pt virt : Z) :
  Z.testbit PAGE_DEFAULT_FLAGS 7 = false ->
  (k < 3)%nat ->
  call_get_phys PAGE_DEFAULT_FLAGS INVALID_PHYS_ADDR k
    (x86_64_set_next_pt PAGE_DEFAULT_FLAGS m pte next_pt) pte virt
  = Some INVALID_PHYS_ADDR
  /\ call_get_phys PAGE_DEFAULT_FLAGS INVALID_PHYS_ADDR k
       (x86_64_clear_entry m pte) pte virt
     = Some INVALID_PHYS_ADDR.
Proof.
  intros Hd Hk.
  assert (Hlink : Z.testbit
                    (load (x86_64_set_next_pt PAGE_DEFAULT_FLAGS m pte next_pt)
                          pte) 7 = false).
  { rewrite set_next_pt_entry. fields. bits. rewrite Hd.
    simpl. now rewrite andb_false_r. }
  assert (Hclear : Z.testbit (load (x86_64_clear_entry m pte) pte) 7 = false).
  { rewrite clear_entry_zero. apply Z.bits_0. }
  destruct k as [| [| [| k]]]; [| | | lia];
    unfold call_get_phys, level, x86_64_paging;
    cbn [nth_error get_phys option_map];
    rewrite ?get_phys_l3_bit7, ?get_phys_l2_bit7, ?Hlink, ?Hclear;
    split; reflexivity.
Qed.

Lemma linked_or_cleared_not_huge_witness :
  call_get_phys 0x3 0xffffffffffffffff 1
    (x86_64_set_next_pt 0x3 (fun _ => 0x40000083) 0x5000 0x7000) 0x5000
    0x40001234
  = Some 0xffffffffffffffff.
Proof.
  apply (linked_or_cleared_not_huge 0x3 0xffffffffffffffff 1
           (fun _ => 0x40000083) 0x5000 0x7000 0x40001234).
  - reflexivity.
  - lia.
Defined.

(** ** Virtual addresses and the walk *)

Lemma field_eq_bits (v1 v2 lo : Z) :
  0 <= lo ->
  vaddr_field v1 lo = vaddr_field v2 lo
  <-> (forall i, lo <= i < lo + 9 -> Z.testbit v1 i = Z.testbit v2 i).
Proof.
  intros Hlo. split.
  - intros Heq i Hi.
    pose proof (vaddr_field_bits v1 lo (i - lo) Hlo ltac:(lia)) as H1.
    pose proof (vaddr_field_bits v2 lo (i - lo) Hlo ltac:(lia)) as H2.
    destruct (Z.ltb_spec (i - lo) 9); [| lia].
    replace (lo + (i - lo)) with i in H1, H2 by lia.
    now rewrite <- H1, <- H2, Heq.
  - intros Hbits. apply Z.bits_inj'; intros i Hi.
    rewrite !vaddr_field_bits by lia.
    destruct (Z.ltb_spec i 9); [apply Hbits; lia | reflexivity].
Qed.

Lemma offset_eq_bits (v1 v2 : Z) :
  Z.land v1 0xfff = Z.land v2 0xfff
  <-> (forall i, 0 <= i < 12 -> Z.testbit v1 i = Z.testbit v2 i).
Proof.
  change 0xfff with (Z.ones 12). rewrite !Z.land_ones by lia. split.
  - intros Heq i Hi.
    rewrite <- (Z.mod_pow2_bits_low v1 12 i), <- (Z.mod_pow2_bits_low v2 12 i)
      by lia.
    now rewrite Heq.
  - intros Hbits. apply Z.bits_inj'; intros i Hi.
    rewrite !Z.testbit_mod_pow2 by lia.
    destruct (Z.ltb_spec i 12); simpl; [apply Hbits; lia | reflexivity].
Qed.

Lemma mod48_eq_bits (v1 v2 : Z) :
  v1 mod 2 ^ 48 = v2 mod 2 ^ 48
  <-> (forall i, 0 <= i < 48 -> Z.testbit v1 i = Z.testbit v2 i).
Proof.
  split.
  - intros Heq i Hi.
    rewrite <- (Z.mod_pow2_bits_low v1 48 i), <- (Z.mod_pow2_bits_low v2 48 i)
      by lia.
    now rewrite Heq.
  - intros Hbits. apply Z.bits_inj'; intros i Hi.
    rewrite !Z.testbit_mod_pow2 by lia.
    destruct (Z.ltb_spec i 48); simpl; [apply Hbits; lia | reflexivity].
Qed.

(** X13: two virtual addresses select the same entry at all four levels
    and have the same page offset exactly when they agree in their low 48
    bits: the walk reads bits 0..47 of the address, all of them, and
    ignores bits 48..63. *)
Theorem same_walk_iff_same_low_48
    (PAGE_DEFAULT_FLAGS INVALID_PHYS_ADDR : Z) (page_table v1 v2 : Z) :
  ((forall k, (k < 4)%nat ->
      call_get_entry PAGE_DEFAULT_FLAGS INVALID_PHYS_ADDR k page_table v1
      = call_get_entry PAGE_DEFAULT_FLAGS INVALID_PHYS_ADDR k page_table v2)
   /\ Z.land v1 0xfff = Z.land v2 0xfff)
  <-> v1 mod 2 ^ 48 = v2 mod 2 ^ 48.
Proof.
  rewrite mod48_eq_bits, offset_eq_bits. split.
  - intros [Hsel Hoff] i Hi.
    assert (Hfield : forall k, (k < 4)%nat ->
              forall j, level_shift k <= j < level_shift k + 9 ->
                Z.testbit v1 j = Z.testbit v2 j).
    { intros k Hk. apply field_eq_bits; [apply level_shift_nonneg |].
      specialize (Hsel k Hk). rewrite !call_get_entry_field in Hsel by exact Hk.
      injection Hsel as Hsel. exact (index_ptr_inj _ _ _ Hsel). }
    destruct (Z.ltb_spec i 12); [apply Hoff; lia |].
    destruct (Z.ltb_spec i 21); [apply (Hfield 3%nat); simpl; lia |].
    destruct (Z.ltb_spec i 30); [apply (Hfield 2%nat); simpl; lia |].
    destruct (Z.ltb_spec i 39); [apply (Hfield 1%nat); simpl; lia |].
    apply (Hfield 0%nat); simpl; lia.
  - intros Hbits. split.
    + intros k Hk. rewrite !call_get_entry_field by exact Hk. do 2 f_equal.
      apply field_eq_bits; [apply level_shift_nonneg |].
      intros i Hi. apply Hbits.
      destruct k as [| [| [| [| k]]]]; simpl in Hi; lia.
    + intros i Hi. apply Hbits. lia.
Qed.

(** ** A large page seen as leaf pages *)

Lemma offset_21_split (virt : Z) :
  virt mod 2 ^ 21 = virt mod 2 ^ 12 + 2 ^ 12 * vaddr_field virt 12.
Proof.
  unfold vaddr_field. change (2 ^ 21) with (2 ^ 12 * 2 ^ 9).
  apply Z.rem_mul_r; lia.
Qed.

Lemma base_2m_page (e n : Z) :
  0 <= n < 512 ->
  let p := Z.land e 0x000fffffffe00000 + PAGE_SIZE * n in
  page_aligned p /\ phys_range p.
Proof.
  intros Hn. cbv zeta. unfold page_aligned, phys_range, PAGE_SIZE.
  pose proof (decoded_range e 0 21 31 ltac:(lia) ltac:(lia)) as Hr.
  rewrite Z.land_0_l, Z.lor_0_r, <- field_21_51 in Hr.
  pose proof (field_aligned e 21 31 ltac:(lia) ltac:(lia)) as Hal.
  rewrite <- field_21_51 in Hal.
  set (b := Z.land e 0x000fffffffe00000) in *.
  pose proof (Z.div_mod b (2 ^ 21) ltac:(lia)) as Hdm.
  rewrite Hal in Hdm. change (2 ^ 21) with 2097152 in *.
  change (2 ^ (21 + 31)) with 4503599627370496 in Hr.
  change (2 ^ 52) with 4503599627370496.
  split; [| lia].
  replace (b + 4096 * n) with ((512 * (b / 2097152) + n) * 4096) by lia.
  apply Z_mod_mult.
Qed.

(** X14: a 2 MiB entry (bit 7 set) at the lower intermediate level
    translates an address exactly as a leaf entry would that maps the
    4 KiB page of the large page's base with the number the leaf
    [get_entry] computes for that address. *)
Theorem huge_2m_as_leaf_page
    (INVALID_PHYS_ADDR : Z) (m m1 : memory) (pte2 pte1 virt flags : Z) :
  Z.testbit (load m pte2) 7 = true ->
  generic_flags flags ->
  let base := Z.land (load m pte2) 0x000fffffffe00000 in
  x86_64_get_phys_l1
    (x86_64_set_terminal_l1 m1 pte1 (base + PAGE_SIZE * vaddr_field virt 12)
       flags) pte1 virt
  = x86_64_get_phys_l2 INVALID_PHYS_ADDR m pte2 virt.
Proof.
  intros Hhuge Hf. cbv zeta.
  destruct (base_2m_page (load m pte2) (vaddr_field virt 12)) as [Hal Hr].
  { pose proof (vaddr_field_range virt 12). lia. }
  rewrite get_phys_after_set_terminal, (generic_flags_below_field flags Hf).
  rewrite Z.lor_0_r, aligned_in_range_field by assumption.
  rewrite get_phys_l2_bit7, Hhuge.
  rewrite lor_disjoint_add.
  - fields. rewrite (decoded_sum (load m pte2) virt 21 31) by lia.
    rewrite low_mask_mod, offset_21_split by lia.
    unfold PAGE_SIZE. change (2 ^ 12) with 4096. lia.
  - rewrite <- (aligned_in_range_field _ Hal Hr). fields.
    apply (field_low_disjoint _ virt 12 40); lia.
Qed.

Lemma huge_2m_as_leaf_page_witness :
  x86_64_get_phys_l1
    (x86_64_set_terminal_l1 (fun _ => 0) 0x6000
       (0x600000 + PAGE_SIZE * vaddr_field 0x201234 12) 0x3) 0x6000 0x201234
  = x86_64_get_phys_l2 0xffffffffffffffff (fun _ => 0x600083) 0x5000 0x201234.
Proof.
  apply (huge_2m_as_leaf_page 0xffffffffffffffff (fun _ => 0x600083)
           (fun _ => 0) 0x5000 0x6000 0x201234 0x3).
  - reflexivity.
  - reflexivity.
Defined.

(** * Per-CPU areas *)

Lemma per_cpu_no_wrap (page_pool size cpu : Z) :
  per_cpu_size_ok size -> u32 cpu ->
  per_cpu page_pool size cpu = page_pool + cpu * size.
Proof.
  unfold per_cpu_size_ok, u32, per_cpu. intros [Hs _] Hc.
  rewrite Z.mod_small; [reflexivity |].
  change (2 ^ 64) with (2 ^ 32 * 2 ^ 32). nia.
Qed.

(** X15: the per-CPU areas are laid out back to back from the page pool:
    with a structure size that is a positive multiple of the page size and
    a page-aligned pool, the area of every CPU is page aligned, and the
    areas of two different CPUs do not overlap. *)
Theorem per_cpu_areas_disjoint (page_pool size c1 c2 : Z) :
  per_cpu_size_ok size -> page_aligned page_pool ->
  u32 c1 -> u32 c2 -> c1 <> c2 ->
  page_aligned (per_cpu page_pool size c1)
  /\ (per_cpu page_pool size c1 + size <= per_cpu page_pool size c2
      \/ per_cpu page_pool size c2 + size <= per_cpu page_pool size c1).
Proof.
  intros Hs Hp H1 H2 Hne.
  rewrite !per_cpu_no_wrap by assumption.
  destruct Hs as [Hs Hmul]. unfold u32 in *. split.
  - unfold page_aligned in *.
    rewrite <- Zplus_mod_idemp_l, Hp, Z.add_0_l.
    rewrite <- Zmult_mod_idemp_r, Hmul, Z.mul_0_r. reflexivity.
  - destruct (Z.lt_ge_cases c1 c2); [left | right]; nia.
Qed.

Lemma per_cpu_areas_disjoint_witness :
  page_aligned (per_cpu 0x100000 0x6000 1)
  /\ (per_cpu 0x100000 0x6000 1 + 0x6000 <= per_cpu 0x100000 0x6000 2
      \/ per_cpu 0x100000 0x6000 2 + 0x6000 <= per_cpu 0x100000 0x6000 1).
Proof.
  apply (per_cpu_areas_disjoint 0x100000 0x6000 1 2).
  - split; [lia | reflexivity].
  - reflexivity.
  - unfold u32. lia.
  - unfold u32. lia.
  - discriminate.
Defined.

(** X16: the public part of a CPU's area, at a fixed offset that leaves
    room for it inside [struct per_cpu], lies within that CPU's own area,
    and the public parts of two different CPUs do not overlap. *)
Theorem public_per_cpu_within_area
    (page_pool size offset public_size c1 c2 : Z) :
  per_cpu_size_ok size ->
  0 <= offset -> 0 < public_size -> offset + public_size <= size ->
  u32 c1 -> u32 c2 -> c1 <> c2 ->
  per_cpu page_pool size c1 <= public_per_cpu page_pool size offset c1
  /\ public_per_cpu page_pool size offset c1 + public_size
     <= per_cpu page_pool size c1 + size
  /\ (public_per_cpu page_pool size offset c1 + public_size
      <= public_per_cpu page_pool size offset c2
      \/ public_per_cpu page_pool size offset c2 + public_size
         <= public_per_cpu page_pool size offset c1).
Proof.
  intros Hs Hoff Hps Hfit H1 H2 Hne. unfold public_per_cpu.
  rewrite !per_cpu_no_wrap by assumption.
  destruct Hs as [Hs _]. unfold u32 in *.
  split; [lia |]. split; [lia |].
  destruct (Z.lt_ge_cases c1 c2); [left | right]; nia.
Qed.

Lemma public_per_cpu_within_area_witness :
  per_cpu 0x100000 0x6000 1 <= public_per_cpu 0x100000 0x6000 0x5000 1
  /\ public_per_cpu 0x100000 0x6000 0x5000 1 + 0x1000
     <= per_cpu 0x100000 0x6000 1 + 0x6000
  /\ (public_per_cpu 0x100000 0x6000 0x5000 1 + 0x1000
      <= public_per_cpu 0x100000 0x6000 0x5000 2
      \/ public_per_cpu 0x100000 0x6000 0x5000 2 + 0x1000
         <= public_per_cpu 0x100000 0x6000 0x5000 1).
Proof.
  apply (public_per_cpu_within_area 0x100000 0x6000 0x5000 0x1000 1 2).
  - split; [lia | reflexivity].
  - lia.
  - lia.
  - lia.
  - unfold u32. lia.
  - unfold u32. lia.
  - discriminate.
Defined.
